(** * yaci: the extraction pipeline (height probes, block fetcher,
      parallel driver, live tailer, gap repairer)

    A shallow embedding of [internal/utils] (height probes) and
    [internal/extractor] (block.go, live.go) and the properties that the
    specification states about them. *)

From Stdlib Require Import ZArith List String Ascii Bool Lia.
From Stdlib Require Import DecimalString.
From Stdlib Require Decimal DecimalPos DecimalN.
From Stdlib Require Import Permutation.
Import ListNotations.

Local Open Scope string_scope.
Local Open Scope Z_scope.

(* ================================================================== *)
(** * Go basics: uint64, strings, errors *)

Module Go.

(** [uint64] values are integers in [0, 2^64); arithmetic wraps. *)
Definition uint64_modulus : Z := 2 ^ 64.
Definition uint64_max : Z := uint64_modulus - 1.
Definition is_uint64 (z : Z) : Prop := 0 <= z <= uint64_max.
Definition wrap64 (z : Z) : Z := z mod uint64_modulus.
Definition sub64 (a b : Z) : Z := wrap64 (a - b).
Definition add64 (a b : Z) : Z := wrap64 (a + b).

(** The character with code 34, written without a quote inside a literal. *)
Definition dquote : string := String "034" EmptyString.

(** [%d] of an unsigned integer. *)
Definition fmt_d (z : Z) : string :=
  NilEmpty.string_of_uint (N.to_uint (Z.to_N z)).

(** ** Errors

    A Go [error] value: the sentinel [context.Canceled], a leaf error with
    its text ([errors.New], an RPC status, ...), or an error wrapped with a
    message ([fmt.Errorf("msg: %w", err)], [errors.WithMessage(err, msg)]).
    A nil [error] is [None] in [option error]. *)
Inductive error : Type :=
| context_Canceled
| errors_New (text : string)
| Wrap (msg : string) (inner : error).

(** [err.Error()] *)
Fixpoint Error (e : error) : string :=
  match e with
  | context_Canceled => "context canceled"
  | errors_New t => t
  | Wrap m e' => m ++ ": " ++ Error e'
  end.

(** [errors.Is(err, context.Canceled)]: walks the chain of wrapped errors. *)
Fixpoint Is_Canceled (e : error) : bool :=
  match e with
  | context_Canceled => true
  | errors_New _ => false
  | Wrap _ e' => Is_Canceled e'
  end.

(** A Go result pair [(value, error)] with exactly one side meaningful. *)
Inductive result (A : Type) : Type :=
| Ok (a : A)
| Err (e : error).
Arguments Ok {A} a.
Arguments Err {A} e.

(** ** strings *)

Definition is_upper (c : ascii) : bool :=
  let n := nat_of_ascii c in (65 <=? n)%nat && (n <=? 90)%nat.
Definition is_digit (c : ascii) : bool :=
  let n := nat_of_ascii c in (48 <=? n)%nat && (n <=? 57)%nat.
Definition is_ascii (c : ascii) : bool := (nat_of_ascii c <? 128)%nat.

Definition lower_byte (c : ascii) : ascii :=
  if is_upper c then ascii_of_nat (nat_of_ascii c + 32) else c.

Fixpoint all_bytes (p : ascii -> bool) (s : string) : bool :=
  match s with
  | EmptyString => true
  | String c s' => p c && all_bytes p s'
  end.

Fixpoint map_bytes (f : ascii -> ascii) (s : string) : string :=
  match s with
  | EmptyString => EmptyString
  | String c s' => String (f c) (map_bytes f s')
  end.

(** [strings.ToLower]: Go lowers an all-ASCII string byte by byte; any other
    string goes through [strings.Map(unicode.ToLower, s)], which is table
    driven and is taken here as the parameter [unicodeLower]. *)
Definition strings_ToLower (unicodeLower : string -> string) (s : string) : string :=
  if all_bytes is_ascii s then map_bytes lower_byte s else unicodeLower s.

(** ** strconv.ParseUint(s, 10, 64) *)

Definition digit_val (c : ascii) : Z := Z.of_nat (nat_of_ascii c) - 48.

(** Accumulates the digits; [None] as soon as a byte is not a digit. *)
Fixpoint parse_digits (acc : Z) (s : string) : option Z :=
  match s with
  | EmptyString => Some acc
  | String c s' =>
      if is_digit c then parse_digits (10 * acc + digit_val c) s' else None
  end.

Definition strconv_Quote (s : string) : string := dquote ++ s ++ dquote.

Definition ErrSyntax (s : string) : error :=
  errors_New ("strconv.ParseUint: parsing " ++ strconv_Quote s ++ ": invalid syntax").
Definition ErrRange (s : string) : error :=
  errors_New ("strconv.ParseUint: parsing " ++ strconv_Quote s ++ ": value out of range").

(** No sign and no underscore is accepted in base 10; the empty string is a
    syntax error; a value above [2^64 - 1] is a range error. *)
Definition ParseUint (s : string) : result Z :=
  match s with
  | EmptyString => Err (ErrSyntax s)
  | _ =>
      match parse_digits 0 s with
      | None => Err (ErrSyntax s)
      | Some v => if v <=? uint64_max then Ok v else Err (ErrRange s)
      end
  end.

End Go.
Import Go.

(* ================================================================== *)
(** * internal/models *)

Record Block : Type := mkBlock { ID : Z; Data : string }.
Record Transaction : Type := mkTransaction { Hash : string; TxData : string }.
Record BlockResults : Type := mkBlockResults { Height : Z; ResultsData : string }.

(* ================================================================== *)
(** * internal/utils: the earliest-height error text *)

Module Utils.

Definition statusMethod : string := "cosmos.base.node.v1beta1.Service.Status".
Definition getBlockByHeightMethod : string :=
  "cosmos.base.tendermint.v1beta1.Service.GetBlockByHeight".

(** The literal part of the regular expression [lowest height is (\d+)]. *)
Definition lowestLiteral : string := "lowest height is ".

(** [strip_prefix p s] is the rest of [s] after the prefix [p]. *)
Fixpoint strip_prefix (p s : string) : option string :=
  match p with
  | EmptyString => Some s
  | String a p' =>
      match s with
      | EmptyString => None
      | String b s' => if Ascii.eqb a b then strip_prefix p' s' else None
      end
  end.

(** The longest run of digits at the head of [s] (the greedy [\d+]);
    [\d] is [0-9] only in Go's syntax. *)
Fixpoint span_digits (s : string) : string :=
  match s with
  | EmptyString => EmptyString
  | String c s' => if is_digit c then String c (span_digits s') else EmptyString
  end.

(** A match of the expression anchored at the head of [s]: the submatch
    list [whole; group 1]. *)
Definition match_here (s : string) : option (list string) :=
  match strip_prefix lowestLiteral s with
  | None => None
  | Some rest =>
      match span_digits rest with
      | EmptyString => None
      | ds => Some [lowestLiteral ++ ds; ds]
      end
  end.

(** [re.FindStringSubmatch(s)]: the leftmost match, [None] for Go's nil. *)
Fixpoint FindStringSubmatch (s : string) : option (list string) :=
  match match_here s with
  | Some m => Some m
  | None =>
      match s with
      | EmptyString => None
      | String _ s' => FindStringSubmatch s'
      end
  end.

Section ParseLowest.
Variable unicodeLower : string -> string.

Definition parseLowestHeightFromError (errMsg : string) : Z :=
  match FindStringSubmatch (strings_ToLower unicodeLower errMsg) with
  | Some (_ :: g1 :: _) =>          (* len(matches) >= 2 *)
      match ParseUint g1 with
      | Ok height => height
      | Err _ => 0
      end
  | _ => 0
  end.

End ParseLowest.

(** What it means for a text to contain [lowest height is <digits>]. *)
Definition contains_pattern (s : string) : Prop :=
  exists pre ds post,
    s = pre ++ lowestLiteral ++ ds ++ post /\
    ds <> EmptyString /\ all_bytes is_digit ds = true.

End Utils.

(* ================================================================== *)
(** * The outside world: contexts, the node, the sink, observable events *)

(** A [context.Context]: the root context of the client (cancelled by the
    process signal; whether it is done is a fact of the environment), or a
    context derived from a parent with its own cancel flag, as
    [errgroup.WithContext] makes. *)
Inductive Context : Type :=
| RootCtx
| DerivedCtx (parent : Context) (cancelled : bool).

(** [client.GRPCClient]; the connection and the resolver are handles into
    the environment and carry no data of their own here. *)
Record GRPCClient : Type := mkClient { Ctx : Context }.

(** [config.ExtractConfig], the fields the extractor reads. *)
Record ExtractConfig : Type := mkConfig {
  MaxRetries : Z;
  MaxConcurrency : Z;
  BlockTime : Z;
  EnableBlockResults : bool
}.

Inductive Level : Type := Info | Warn | Error_.

(** What the program does to the outside, in order. [EvTaskDone] is the
    value a goroutine hands to its errgroup. *)
Inductive Event : Type :=
| EvGetGRPCResponse (method : string) (retries : Z) (params : string)
| EvFieldRequest (method : string) (retries : Z) (path : string)
| EvExtractTransactions (retries : Z)
| EvWriteBlockWithTransactions (b : Block) (txs : list Transaction)
| EvWriteBlockResults (r : BlockResults)
| EvGetMissingBlockIds
| EvSleep (nanoseconds : Z)
| EvBar (op : string)
| EvSlog (l : Level) (msg : string)
| EvTaskDone (height : Z) (ctxCancelled : bool) (r : option error).

(** The node, the clock, the process signal and the terminal: everything
    the extractor reaches through [internal/utils], [internal/client] and
    the Go libraries. The bodies of [GetGRPCResponse] (the retry wrapper
    around the dynamic caller), of the field request behind
    [ExtractGRPCField] and of [extractTransactions] are not part of this
    development; they are the operations of this interface. The two method
    names are constants of package extractor. *)
Class Platform (Env : Type) : Type := {
  Json : Type;
  blockMethodFullName : string;
  blockResultsMethodFullName : string;
  ctx_Done : Env -> bool;
  GetGRPCResponse :
    GRPCClient -> string -> Z -> string -> Env -> Env * result string;
  fieldRequest :
    GRPCClient -> string -> Z -> string -> Env -> Env * result string;
  extractTransactions :
    GRPCClient -> Json -> Z -> Env -> Env * result (list Transaction);
  json_Unmarshal : string -> result Json;
  time_Sleep : Z -> Env -> Env;
  bar_RenderBlank : Env -> Env * option error;
  bar_Add : Env -> Env * option error;
  bar_Finish : Env -> Env * option error;
  unicodeLower : string -> string
}.

(** [output.OutputHandler], the methods the extractor calls. The boolean is
    whether the context handed to the method is already done. *)
Class OutputHandler (Sink : Type) : Type := {
  WriteBlockWithTransactions :
    bool -> Block -> list Transaction -> Sink -> Sink * option error;
  WriteBlockResults : bool -> BlockResults -> Sink -> Sink * option error;
  GetMissingBlockIds : bool -> Sink -> Sink * result (list Z)
}.

Record World (Env Sink : Type) : Type := mkWorld {
  env : Env;
  sink : Sink;
  trace : list Event
}.
Arguments mkWorld {Env Sink} env sink trace.
Arguments env {Env Sink} w.
Arguments sink {Env Sink} w.
Arguments trace {Env Sink} w.

(** ** A state monad over the world *)

Section Monad.
Context {Env Sink : Type}.

Definition M (A : Type) : Type := World Env Sink -> World Env Sink * A.

Definition ret {A} (a : A) : M A := fun w => (w, a).
Definition bind {A B} (m : M A) (k : A -> M B) : M B :=
  fun w => let (w', a) := m w in k a w'.

Definition emit (e : Event) : M unit :=
  fun w => (mkWorld (env w) (sink w) (trace w ++ [e]), tt).

(** A call into the environment, recorded. *)
Definition callEnv {A} (e : Event) (f : Env -> Env * A) : M A :=
  fun w => let (n', a) := f (env w) in
           (mkWorld n' (sink w) (trace w ++ [e]), a).

(** A call into the sink, recorded. *)
Definition callSink {A} (e : Event) (f : Sink -> Sink * A) : M A :=
  fun w => let (s', a) := f (sink w) in
           (mkWorld (env w) s' (trace w ++ [e]), a).

Definition readEnv {A} (f : Env -> A) : M A := fun w => (w, f (env w)).

End Monad.

Declare Scope go_scope.
Delimit Scope go_scope with go.
Notation "x <- m ;; k" := (bind m (fun x => k))
  (at level 61, m at next level, right associativity) : go_scope.
Notation "m ;;; k" := (bind m (fun _ => k))
  (at level 61, right associativity) : go_scope.
Local Open Scope go_scope.

Section Calls.
Context {Env Sink : Type} `{P : Platform Env} `{O : OutputHandler Sink}.

(** [ctx.Err() != nil] *)
Fixpoint ctx_Err (c : Context) (n : Env) : bool :=
  match c with
  | RootCtx => ctx_Done n
  | DerivedCtx parent cancelled => cancelled || ctx_Err parent n
  end.

Definition slog (l : Level) (msg : string) : M (Env:=Env) (Sink:=Sink) unit :=
  emit (EvSlog l msg).

Definition rpc (c : GRPCClient) (method : string) (retries : Z) (params : string)
  : M (Env:=Env) (Sink:=Sink) (result string) :=
  callEnv (EvGetGRPCResponse method retries params)
          (GetGRPCResponse c method retries params).

End Calls.

(* ================================================================== *)
(** * internal/utils: the height probes *)

Module Probes.
Import Utils.

(** [[]byte(`{"height":"1"}`)] *)
Definition heightOneParams : string :=
  "{" ++ dquote ++ "height" ++ dquote ++ ":" ++ dquote ++ "1" ++ dquote ++ "}".

(** The record of one poll of the node's height. *)
Definition pollCall (cfg : ExtractConfig) : Event :=
  EvFieldRequest statusMethod (MaxRetries cfg) "height".

(** The record of one probe request for block 1. *)
Definition probeCall (retries : Z) : Event :=
  EvGetGRPCResponse getBlockByHeightMethod retries heightOneParams.

Section Probes.
Context {Env Sink : Type} `{P : Platform Env} `{O : OutputHandler Sink}.
Local Abbreviation M := (M (Env:=Env) (Sink:=Sink)).

(** Modelled from the spec: the body of [ExtractGRPCField] is missing from
    the sources. Section 4.4: it invokes the method, walks the dot-delimited
    field path through the response and hands the text found to the parser;
    the request and the walk are the environment's [fieldRequest]. *)
Definition ExtractGRPCField {T : Type} (c : GRPCClient) (method : string)
    (maxRetries : Z) (fieldPath : string) (parser : string -> result T)
  : M (result T) :=
  r <- callEnv (EvFieldRequest method maxRetries fieldPath)
               (fieldRequest c method maxRetries fieldPath) ;;
  match r with
  | Err err => ret (Err err)
  | Ok s => ret (parser s)
  end.

Definition GetLatestBlockHeightWithRetry (c : GRPCClient) (maxRetries : Z)
  : M (result Z) :=
  ExtractGRPCField c statusMethod maxRetries "height"
    (fun s =>
       match ParseUint s with
       | Err err => Err (Wrap "error parsing height" err)
       | Ok height => Ok height
       end).

(** The Go function returns the pair [(uint64, error)]. *)
Definition GetEarliestBlockHeight (c : GRPCClient) (maxRetries : Z)
  : M (Z * option error) :=
  let inputParams := heightOneParams in
  r <- rpc c getBlockByHeightMethod 1 inputParams ;;
  match r with
  | Ok _ => ret (1, None)
  | Err err =>
      let lowestHeight := parseLowestHeightFromError unicodeLower (Error err) in
      if 0 <? lowestHeight then ret (lowestHeight, None)
      else
        r2 <- rpc c getBlockByHeightMethod maxRetries inputParams ;;
        match r2 with
        | Ok _ => ret (1, None)
        | Err err2 =>
            ret (0, Some (Wrap "failed to determine earliest block height" err2))
        end
  end.

End Probes.
End Probes.

(* ================================================================== *)
(** * internal/extractor: one block *)

Module Extractor.
Import Probes.
Section Extractor.
Context {Env Sink : Type} `{P : Platform Env} `{O : OutputHandler Sink}.
Local Abbreviation M := (M (Env:=Env) (Sink:=Sink)).

(** [fmt.Sprintf(`{"height": %d}`, blockHeight)] *)
Definition heightParams (blockHeight : Z) : string :=
  "{" ++ dquote ++ "height" ++ dquote ++ ": " ++ fmt_d blockHeight ++ "}".

(** The record of the request for the block at height [h]. *)
Definition blockCall (maxRetries h : Z) : Event :=
  EvGetGRPCResponse blockMethodFullName maxRetries (heightParams h).

(** The record of the request for the block results at height [h]. *)
Definition resultsCall (maxRetries h : Z) : Event :=
  EvGetGRPCResponse blockResultsMethodFullName maxRetries (heightParams h).

Definition processSingleBlockWithRetry (c : GRPCClient) (blockHeight : Z)
    (maxRetries : Z) : M (option error) :=
  let blockJsonParams := heightParams blockHeight in
  r <- rpc c blockMethodFullName maxRetries blockJsonParams ;;
  match r with
  | Err err => ret (Some (Wrap "failed to get block data" err))
  | Ok blockJsonBytes =>
      let block := mkBlock blockHeight blockJsonBytes in
      match json_Unmarshal blockJsonBytes with
      | Err err => ret (Some (Wrap "failed to unmarshal block JSON" err))
      | Ok data =>
          t <- callEnv (EvExtractTransactions maxRetries)
                       (extractTransactions c data maxRetries) ;;
          match t with
          | Err err =>
              ret (Some (Wrap "failed to extract transactions from block" err))
          | Ok transactions =>
              done <- readEnv (ctx_Err (Ctx c)) ;;
              e <- callSink (EvWriteBlockWithTransactions block transactions)
                            (WriteBlockWithTransactions done block transactions) ;;
              match e with
              | Some err =>
                  ret (Some (Wrap "failed to write block with transactions" err))
              | None => ret None
              end
          end
      end
  end.

Definition fetchBlockResults (c : GRPCClient) (blockHeight : Z) (maxRetries : Z)
  : M (result BlockResults) :=
  let blockResultsParams := heightParams blockHeight in
  r <- rpc c blockResultsMethodFullName maxRetries blockResultsParams ;;
  match r with
  | Err err => ret (Err (Wrap "failed to get block results" err))
  | Ok blockResultsBytes => ret (Ok (mkBlockResults blockHeight blockResultsBytes))
  end.

Definition processSingleBlockWithResultsAndRetry (c : GRPCClient)
    (blockHeight : Z) (maxRetries : Z) : M (option error) :=
  e <- processSingleBlockWithRetry c blockHeight maxRetries ;;
  match e with
  | Some err => ret (Some err)
  | None =>
      r <- fetchBlockResults c blockHeight maxRetries ;;
      match r with
      | Err err =>
          slog Warn
            "Failed to fetch block results (node may not support GetBlockResults)" ;;;
          ret None
      | Ok blockResults =>
          done <- readEnv (ctx_Err (Ctx c)) ;;
          e2 <- callSink (EvWriteBlockResults blockResults)
                         (WriteBlockResults done blockResults) ;;
          match e2 with
          | Some err => ret (Some (Wrap "failed to write block results" err))
          | None => ret None
          end
      end
  end.

(** The branch on [cfg.EnableBlockResults], as written in both callers. *)
Definition processOne (cfg : ExtractConfig) (c : GRPCClient) (blockHeight : Z)
  : M (option error) :=
  if EnableBlockResults cfg
  then processSingleBlockWithResultsAndRetry c blockHeight (MaxRetries cfg)
  else processSingleBlockWithRetry c blockHeight (MaxRetries cfg).

(** ** The gap repairer *)

(** The body of [for _, blockID := range missingBlockIds]. *)
Fixpoint processMissingLoop (cfg : ExtractConfig) (c : GRPCClient)
    (ids : list Z) : M (option error) :=
  match ids with
  | [] => ret None
  | blockID :: rest =>
      processErr <- processOne cfg c blockID ;;
      match processErr with
      | Some err =>
          ret (Some (Wrap ("failed to process missing block " ++ fmt_d blockID) err))
      | None => processMissingLoop cfg c rest
      end
  end.

Definition processMissingBlocks (c : GRPCClient) (cfg : ExtractConfig)
  : M (option error) :=
  done <- readEnv (ctx_Err (Ctx c)) ;;
  r <- callSink EvGetMissingBlockIds (GetMissingBlockIds done) ;;
  match r with
  | Err err => ret (Some (Wrap "failed to get missing block IDs" err))
  | Ok missingBlockIds =>
      if (0 <? List.length missingBlockIds)%nat then
        slog Warn "Missing blocks detected" ;;;
        processMissingLoop cfg c missingBlockIds
      else ret None
  end.

End Extractor.
End Extractor.

(* ================================================================== *)
(** * internal/extractor: the parallel driver and the live tailer *)

Module Driver.
Import Probes Extractor.

(** One decision of the Go scheduler while [processBlocks] runs: let the
    [for] loop do its next iteration, or let the goroutine started for
    height [h] run to its [return]. *)
Inductive Choice : Type :=
| Spawn
| Finish (h : Z).

(** Which [return] of [processBlocks] was taken: the one inside the loop
    or the one after [eg.Wait()]. *)
Inductive Exit : Type := LoopReturn | WaitReturn.

(** The [errgroup.Group] with its context: the first error handed to it
    (which is also what cancels the group's context) and the heights whose
    goroutines hold a slot of [sem]. *)
Record Group : Type := mkGroup { gErr : option error; running : list Z }.

Definition isSome {A} (o : option A) : bool :=
  match o with Some _ => true | None => false end.

Fixpoint remove_first (h : Z) (l : list Z) : list Z :=
  match l with
  | [] => []
  | x :: l' => if x =? h then l' else x :: remove_first h l'
  end.

(** What a loop iteration of the tailer leaves behind. *)
Inductive Step : Type :=
| Continue (currentHeight : Z)
| Return (err : option error).

(** Conversion to [int64], as in [time.Duration(x)]. *)
Definition to_int64 (z : Z) : Z := (z + 2 ^ 63) mod 2 ^ 64 - 2 ^ 63.

(** [time.Duration(cfg.BlockTime) * time.Second], in nanoseconds. *)
Definition sleepDuration (cfg : ExtractConfig) : Z :=
  to_int64 (to_int64 (BlockTime cfg) * 1000000000).

Section Driver.
Context {Env Sink : Type} `{P : Platform Env} `{O : OutputHandler Sink}.
Local Abbreviation M := (M (Env:=Env) (Sink:=Sink)).
Local Abbreviation World := (World Env Sink).

(** The context made by [errgroup.WithContext(gRPCClient.Ctx)]. *)
Definition groupCtx (parent : Context) (g : Group) : Context :=
  DerivedCtx parent (isSome (gErr g)).

(** The function handed to [eg.Go]. [clientWithCtx] carries the group's
    context; the goroutine runs in one piece at the moment the scheduler
    picks it, so it sees the context as it is then. *)
Definition blockTask (cfg : ExtractConfig) (parent : Context) (bar : bool)
    (g : Group) (blockHeight : Z) : M (option error) :=
  let clientWithCtx := mkClient (groupCtx parent g) in
  err <- processOne cfg clientWithCtx blockHeight ;;
  match err with
  | Some err =>
      if negb (Is_Canceled err) then
        slog Error_ "Block processing error" ;;;
        ret (Some err)
      else
        slog Error_ "Failed to process block" ;;;
        ret (Some (Wrap ("failed to process block " ++ fmt_d blockHeight) err))
  | None =>
      (if bar then
         e <- callEnv (EvBar "Add") bar_Add ;;
         match e with
         | Some _ => slog Warn "Failed to update progress bar"
         | None => ret tt
         end
       else ret tt) ;;;
      ret None
  end.

(** [eg.Go]'s bookkeeping when a goroutine returns [r]: only the first
    non-nil error is kept. *)
Definition recordResult (g : Group) (h : Z) (r : option error) : Group :=
  mkGroup (match gErr g with Some e => Some e | None => r end)
          (remove_first h (running g)).

(** [processBlocks] under a schedule. [height] is the loop variable.
    [None]: the schedule is not a complete run (it picks a step that cannot
    be taken: the loop while [sem] is full or after its last iteration, a
    goroutine that is not running; or it ends before [eg.Wait()] can
    return). After the [return] inside the loop the goroutines still
    running are left to themselves. *)
Fixpoint runBlocks (cfg : ExtractConfig) (parent : Context) (stop : Z)
    (bar : bool) (sched : list Choice) (height : Z) (g : Group) (w : World)
  : option (World * (Exit * option error)) :=
  match sched with
  | [] =>
      if (stop <? height) && (Nat.eqb (List.length (running g)) 0)
      then Some (w, (WaitReturn,
                     option_map (Wrap "error while fetching blocks") (gErr g)))
      else None
  | Spawn :: rest =>
      if height <=? stop then
        if ctx_Err (groupCtx parent g) (env w) then
          let (w', _) := slog Info "Processing cancelled by user" w in
          Some (w', (LoopReturn, Some context_Canceled))
        else if Z.of_nat (List.length (running g)) <? MaxConcurrency cfg then
          runBlocks cfg parent stop bar rest (add64 height 1)
                    (mkGroup (gErr g) (running g ++ [height])) w
        else None
      else None
  | Finish h :: rest =>
      if existsb (Z.eqb h) (running g) then
        let (w1, r) := blockTask cfg parent bar g h w in
        let (w2, _) := emit (EvTaskDone h (isSome (gErr g)) r) w1 in
        runBlocks cfg parent stop bar rest height (recordResult g h r) w2
      else None
  end.

Definition processBlocks (sched : list Choice) (c : GRPCClient)
    (start stop : Z) (cfg : ExtractConfig) (bar : bool) (w : World)
  : option (World * (Exit * option error)) :=
  runBlocks cfg (Ctx c) stop bar sched start (mkGroup None []) w.

Definition extractBlocksAndTransactions (sched : list Choice) (c : GRPCClient)
    (start stop : Z) (cfg : ExtractConfig) (w : World)
  : option (World * option error) :=
  let displayProgress := negb (start =? stop) in
  let (w1, _) := slog Info "Extracting blocks and transactions" w in
  let (w2, rendered) :=
    if displayProgress then callEnv (EvBar "RenderBlank") bar_RenderBlank w1
    else (w1, None) in
  match rendered with
  | Some err => Some (w2, Some (Wrap "failed to render progress bar" err))
  | None =>
      match processBlocks sched c start stop cfg displayProgress w2 with
      | None => None
      | Some (w3, (_, Some err)) =>
          Some (w3, Some (Wrap "failed to process blocks and transactions" err))
      | Some (w3, (_, None)) =>
          if displayProgress then
            let (w4, finished) := callEnv (EvBar "Finish") bar_Finish w3 in
            match finished with
            | Some err => Some (w4, Some (Wrap "failed to finish progress bar" err))
            | None => Some (w4, None)
            end
          else Some (w3, None)
      end
  end.

(** ** The live tailer *)

(** [time.Sleep(time.Duration(cfg.BlockTime) * time.Second)] *)
Definition pollSleep (cfg : ExtractConfig) : M unit :=
  callEnv (EvSleep (sleepDuration cfg))
          (fun n => (time_Sleep (sleepDuration cfg) n, tt)).

(** One pass through the body of the [for] of
    [extractLiveBlocksAndTransactions]; [sched] is the schedule of the
    drive it may start. *)
Definition liveIteration (sched : list Choice) (c : GRPCClient)
    (cfg : ExtractConfig) (currentHeight : Z) (w : World)
  : option (World * Step) :=
  if ctx_Err (Ctx c) (env w) then Some (w, Return None)
  else
    let (w1, r) := GetLatestBlockHeightWithRetry c (MaxRetries cfg) w in
    match r with
    | Err err =>
        Some (w1, Return (Some (Wrap "failed to get latest block height" err)))
    | Ok latestHeight =>
        if currentHeight <? latestHeight then
          match extractBlocksAndTransactions sched c (add64 currentHeight 1)
                                             latestHeight cfg w1 with
          | None => None
          | Some (w2, Some err) =>
              Some (w2, Return (Some
                     (Wrap "failed to process blocks and transactions" err)))
          | Some (w2, None) => Some (fst (pollSleep cfg w2), Continue latestHeight)
          end
        else Some (fst (pollSleep cfg w1), Continue currentHeight)
    end.

(** The [for] loop, one schedule per iteration; when the schedules run
    out the loop is still going, with the [currentHeight] reached. *)
Fixpoint liveLoop (scheds : list (list Choice)) (c : GRPCClient)
    (cfg : ExtractConfig) (currentHeight : Z) (w : World)
  : option (World * Step) :=
  match scheds with
  | [] => Some (w, Continue currentHeight)
  | sched :: rest =>
      match liveIteration sched c cfg currentHeight w with
      | None => None
      | Some (w', Return r) => Some (w', Return r)
      | Some (w', Continue h) => liveLoop rest c cfg h w'
      end
  end.

Definition extractLiveBlocksAndTransactions (scheds : list (list Choice))
    (c : GRPCClient) (start : Z) (cfg : ExtractConfig) (w : World)
  : option (World * Step) :=
  let currentHeight := sub64 start 1 in
  liveLoop scheds c cfg currentHeight w.

End Driver.
End Driver.

(* ================================================================== *)
(** * A scripted node and an in-memory sink

    A small environment to run the extractor on: a clock in nanoseconds, a
    signal that arrives at a fixed time, a node that answers from a table
    and a sink that keeps what it is given. *)

Module Sim.

Record SimEnv : Type := mkSimEnv {
  clock : Z;
  cancelAt : option Z;
  latency : Z;                                 (* time one request takes *)
  reply : string -> string -> result string;   (* method, params *)
  status : result string                       (* the node's height field *)
}.

Record SimSink : Type := mkSimSink {
  blocks : list Block;
  txs : list Transaction;
  results : list BlockResults;
  missing : result (list Z);
  resultsWriteError : option error
}.

Definition simDone (n : SimEnv) : bool :=
  match cancelAt n with
  | Some t => t <=? clock n
  | None => false
  end.

Fixpoint simCtxErr (c : Context) (n : SimEnv) : bool :=
  match c with
  | RootCtx => simDone n
  | DerivedCtx parent cancelled => cancelled || simCtxErr parent n
  end.

(** [time.Sleep(d)] returns after [d] has passed; at once if [d <= 0]. *)
Definition simSleep (d : Z) (n : SimEnv) : SimEnv :=
  mkSimEnv (clock n + Z.max d 0) (cancelAt n) (latency n) (reply n) (status n).

(** A request takes [latency n]; if its context is done by the time the
    answer is due, the caller gets [context.Canceled] instead. *)
Definition simRequest (c : GRPCClient) (answer : SimEnv -> result string)
    (n : SimEnv) : SimEnv * result string :=
  let n' := simSleep (latency n) n in
  (n', if simCtxErr (Ctx c) n' then Err context_Canceled else answer n').

Definition simBlockMethod : string := "cosmos.tx.v1beta1.Service.GetBlockWithTxs".
Definition simResultsMethod : string :=
  "cosmos.base.tendermint.v1beta1.Service.GetBlockResults".

#[export] Instance simPlatform : Platform SimEnv := {|
  Json := string;
  blockMethodFullName := simBlockMethod;
  blockResultsMethodFullName := simResultsMethod;
  ctx_Done := simDone;
  GetGRPCResponse := fun c method _ params =>
    simRequest c (fun n => reply n method params);
  fieldRequest := fun c _ _ _ => simRequest c status;
  extractTransactions := fun _ data _ n =>
    (n, if String.eqb data "{}" then Ok []
        else Ok [mkTransaction ("hash-of-" ++ data) data]);
  json_Unmarshal := fun s =>
    if String.eqb s "" then Err (errors_New "unexpected end of JSON input")
    else Ok s;
  time_Sleep := simSleep;
  bar_RenderBlank := fun n => (n, None);
  bar_Add := fun n => (n, None);
  bar_Finish := fun n => (n, None);
  unicodeLower := fun s => s
|}.

#[export] Instance simSink : OutputHandler SimSink := {|
  WriteBlockWithTransactions := fun _ b ts s =>
    (mkSimSink (blocks s ++ [b]) (txs s ++ ts) (results s) (missing s)
               (resultsWriteError s), None);
  WriteBlockResults := fun _ r s =>
    match resultsWriteError s with
    | Some e => (s, Some e)
    | None =>
        (mkSimSink (blocks s) (txs s) (results s ++ [r]) (missing s)
                   (resultsWriteError s), None)
    end;
  GetMissingBlockIds := fun _ s => (s, missing s)
|}.

Definition emptySink : SimSink := mkSimSink [] [] [] (Ok []) None.

(** A node that serves every block and every block result. *)
Definition healthyNode (latest : Z) : SimEnv :=
  mkSimEnv 0 None 0 (fun _ params => Ok ("block " ++ params)) (Ok (fmt_d latest)).

(** The same node with the signal arriving at time [t]. *)
Definition signalAt (t : Z) (n : SimEnv) : SimEnv :=
  mkSimEnv (clock n) (Some t) (latency n) (reply n) (status n).


Definition start (n : SimEnv) (s : SimSink) : World SimEnv SimSink :=
  mkWorld n s [].

Definition rootClient : GRPCClient := mkClient RootCtx.


(** The node is at height 10, already processed by a tailer started at 11;
    the poll interval is 10 s and the signal arrives 3 s into the run. *)
Definition idleTail : World SimEnv SimSink :=
  start (signalAt 3000000000 (healthyNode 10)) emptySink.

Definition tenSeconds : ExtractConfig := mkConfig 3 2 10 false.

(** A pruned node: every request for a block fails and names the lowest
    height the node still has. *)
Definition prunedNode (lowest : Z) : SimEnv :=
  mkSimEnv 0 None 0
    (fun _ _ =>
       Err (errors_New
              ("rpc error: code = InvalidArgument desc = height 1 is not available, lowest height is "
               ++ fmt_d lowest)))
    (Ok "120").

(** A sink that reports the given heights as missing. *)
Definition sinkMissing (ids : list Z) : SimSink :=
  mkSimSink [] [] [] (Ok ids) None.

End Sim.

(* ================================================================== *)
(** * Vocabulary of the specification *)

Module Spec.
Import Probes Extractor Driver.
Import (hints) Sim.

(** The calls that write to the sink. *)
Definition isSinkWrite (e : Event) : bool :=
  match e with
  | EvWriteBlockWithTransactions _ _ => true
  | EvWriteBlockResults _ => true
  | _ => false
  end.

Definition sinkWrites (tr : list Event) : list Event := filter isSinkWrite tr.

(** What the goroutines handed to the errgroup, in order of completion:
    height, whether the group's context was already cancelled, result. *)
Fixpoint taskResults (tr : list Event) : list (Z * bool * option error) :=
  match tr with
  | [] => []
  | EvTaskDone h cancelled r :: tr' => (h, cancelled, r) :: taskResults tr'
  | _ :: tr' => taskResults tr'
  end.

(** The errors among them. *)
Fixpoint taskErrors (tr : list Event) : list error :=
  match tr with
  | [] => []
  | EvTaskDone _ _ (Some e) :: tr' => e :: taskErrors tr'
  | _ :: tr' => taskErrors tr'
  end.

(** The first error in a list of task results. *)
Fixpoint firstError (rs : list (Z * bool * option error)) : option error :=
  match rs with
  | [] => None
  | (_, _, Some e) :: _ => Some e
  | (_, _, None) :: rs' => firstError rs'
  end.

(** [peersCancelled b rs]: each task saw the group's context cancelled
    exactly when an earlier task had failed ([b]: one had before [rs]). *)
Fixpoint peersCancelled (b : bool) (rs : list (Z * bool * option error)) : Prop :=
  match rs with
  | [] => True
  | (_, cancelled, r) :: rs' =>
      cancelled = b /\ peersCancelled (b || isSome r) rs'
  end.

(** What the function handed to [eg.Go] can return for height [h]: nil, an
    error that is not a cancellation, or a cancellation wrapped with the
    height. *)
Definition taskShape (t : Z * bool * option error) : Prop :=
  match t with
  | (h, _, None) => True
  | (h, _, Some e) =>
      Is_Canceled e = false \/
      exists e', e = Wrap ("failed to process block " ++ fmt_d h) e' /\
                 Is_Canceled e' = true
  end.


(** The schedule that runs one goroutine at a time: start the task for a
    height, let it finish, go on to the next height. *)
Fixpoint sequential (height : Z) (n : nat) : list Choice :=
  match n with
  | O => []
  | S n' => Spawn :: Finish height :: sequential (height + 1) n'
  end.


Section Spec.
Context {Env Sink : Type} `{P : Platform Env} `{O : OutputHandler Sink}.
Local Abbreviation World := (World Env Sink).

(** What a run added to the record of events. *)
Definition newEvents (w w' : World) : list Event :=
  skipn (List.length (trace w)) (trace w').

(** The block-results step as the specification words it: whenever the
    block and its transactions are written, the height succeeds. *)
Definition results_best_effort (c : GRPCClient) (blockHeight maxRetries : Z)
    (w : World) : Prop :=
  snd (processSingleBlockWithRetry c blockHeight maxRetries w) = None ->
  snd (processSingleBlockWithResultsAndRetry c blockHeight maxRetries w) = None.


(** A computation that hands nothing to the errgroup: it only appends
    events, none of them a task result. *)
Definition Quiet {A : Type} (m : M (Env:=Env) (Sink:=Sink) A) : Prop :=
  forall w, exists evs,
    trace (fst (m w)) = (trace w ++ evs)%list /\ taskResults evs = [].


End Spec.

(** The inter-poll sleep as the specification words it, on the scripted
    node: once the signal has arrived the tailer is not asleep any more, so
    its clock never passes the time of the signal. *)
Definition sleep_aborted_by_cancel (scheds : list (list Choice))
    (c : GRPCClient) (start : Z) (cfg : ExtractConfig)
    (w : World Sim.SimEnv Sim.SimSink) : Prop :=
  forall t w' st,
    Sim.cancelAt (env w) = Some t ->
    Sim.clock (env w) <= t ->
    extractLiveBlocksAndTransactions scheds c start cfg w = Some (w', st) ->
    Sim.clock (env w') <= t.

End Spec.

(* ================================================================== *)
(** * What a run leaves in the record of events *)

Module Observe.
Import Probes Extractor Driver Spec.

(** The heights of the blocks handed to [WriteBlockWithTransactions], in
    the order of the calls. *)
Fixpoint writtenHeights (tr : list Event) : list Z :=
  match tr with
  | [] => []
  | EvWriteBlockWithTransactions b _ :: tr' => ID b :: writtenHeights tr'
  | _ :: tr' => writtenHeights tr'
  end.

(** The heights of the goroutines, in order of completion. *)
Definition taskHeights (rs : list (Z * bool * option error)) : list Z :=
  map (fun t => fst (fst t)) rs.

(** [n] consecutive heights from [start] on. *)
Fixpoint upFrom (start : Z) (n : nat) : list Z :=
  match n with
  | O => []
  | S n' => start :: upFrom (start + 1) n'
  end.

(** The heights [start, start + 1, ..., stop]; empty when [stop < start]. *)
Definition heightRange (start stop : Z) : list Z :=
  upFrom start (Z.to_nat (stop - start + 1)).

(** The value a string of decimal digits spells, most significant digit
    first, continuing from [acc]. *)
Fixpoint uint_value (acc : Z) (d : Decimal.uint) : Z :=
  match d with
  | Decimal.Nil => acc
  | Decimal.D0 d' => uint_value (10 * acc + 0) d'
  | Decimal.D1 d' => uint_value (10 * acc + 1) d'
  | Decimal.D2 d' => uint_value (10 * acc + 2) d'
  | Decimal.D3 d' => uint_value (10 * acc + 3) d'
  | Decimal.D4 d' => uint_value (10 * acc + 4) d'
  | Decimal.D5 d' => uint_value (10 * acc + 5) d'
  | Decimal.D6 d' => uint_value (10 * acc + 6) d'
  | Decimal.D7 d' => uint_value (10 * acc + 7) d'
  | Decimal.D8 d' => uint_value (10 * acc + 8) d'
  | Decimal.D9 d' => uint_value (10 * acc + 9) d'
  end.

(** Whether the text opens with a digit. *)
Definition starts_with_digit (s : string) : bool :=
  match s with
  | EmptyString => false
  | String c _ => is_digit c
  end.

Definition isBarEvent (e : Event) : bool :=
  match e with EvBar _ => true | _ => false end.

Definition isResultsWrite (e : Event) : bool :=
  match e with EvWriteBlockResults _ => true | _ => false end.

Definition isSinkCall (e : Event) : bool :=
  match e with
  | EvWriteBlockWithTransactions _ _ => true
  | EvWriteBlockResults _ => true
  | EvGetMissingBlockIds => true
  | _ => false
  end.

Section Observe.
Context {Env Sink : Type} `{P : Platform Env} `{O : OutputHandler Sink}.

(** A computation all of whose events satisfy [ok]. *)
Definition Only {A : Type} (ok : Event -> bool)
    (m : M (Env:=Env) (Sink:=Sink) A) : Prop :=
  forall w, exists evs,
    trace (fst (m w)) = (trace w ++ evs)%list /\ forallb ok evs = true.

(** What a stretch of the tailer's loop that began with [currentHeight]
    leaves: still going with a height not below it, every height passed
    written once; or returned, cleanly on a cancelled context, or with the
    wrapped error of the probe or of the drive. *)
Definition iterationOutcome (c : GRPCClient) (currentHeight : Z)
    (w w' : World Env Sink) (st : Step) : Prop :=
  match st with
  | Continue h =>
      currentHeight <= h /\ is_uint64 h /\
      exists evs,
        trace w' = (trace w ++ evs)%list /\
        Permutation (writtenHeights evs) (heightRange (currentHeight + 1) h)
  | Return None => ctx_Err (Ctx c) (env w') = true
  | Return (Some e) =>
      exists e',
        e = Wrap "failed to get latest block height" e' \/
        e = Wrap "failed to process blocks and transactions" e'
  end.

End Observe.
End Observe.

(* ================================================================== *)
(** * Properties of the height probes *)

Module UtilsFacts.
Import Utils.

Lemma strip_prefix_sound : forall p s r,
  strip_prefix p s = Some r -> s = p ++ r.
Proof.
  induction p as [|a p IH]; intros s r H; simpl in *.
  - now inversion H.
  - destruct s as [|b s]; [discriminate|].
    destruct (Ascii.eqb_spec a b) as [->|]; [|discriminate].
    now rewrite (IH _ _ H).
Qed.

Lemma strip_prefix_complete : forall p r, strip_prefix p (p ++ r) = Some r.
Proof.
  induction p as [|a p IH]; intros r; simpl; [reflexivity|].
  now rewrite Ascii.eqb_refl.
Qed.

Lemma span_digits_digits : forall s, all_bytes is_digit (span_digits s) = true.
Proof.
  induction s as [|c s IH]; simpl; [reflexivity|].
  destruct (is_digit c) eqn:E; simpl; [now rewrite E|reflexivity].
Qed.

Lemma span_digits_split : forall s, exists post, s = span_digits s ++ post.
Proof.
  induction s as [|c s [post IH]]; simpl.
  - now exists EmptyString.
  - destruct (is_digit c).
    + exists post. simpl. now rewrite <- IH.
    + now exists (String c s).
Qed.

(** A run of digits at the head is not missed by the greedy scan. *)
Lemma span_digits_head : forall ds post,
  ds <> EmptyString -> all_bytes is_digit ds = true ->
  span_digits (ds ++ post) <> EmptyString.
Proof.
  intros [|c ds] post Hne Hd; [congruence|].
  simpl in *. apply andb_prop in Hd as [-> _]. discriminate.
Qed.

Lemma match_here_sound : forall s m,
  match_here s = Some m ->
  exists ds post, s = lowestLiteral ++ ds ++ post /\
                  ds <> EmptyString /\ all_bytes is_digit ds = true /\
                  m = [lowestLiteral ++ ds; ds].
Proof.
  unfold match_here. intros s m H.
  destruct (strip_prefix lowestLiteral s) as [rest|] eqn:Hp; [|discriminate].
  apply strip_prefix_sound in Hp.
  destruct (span_digits_split rest) as [post Hpost].
  pose proof (span_digits_digits rest) as Hd.
  destruct (span_digits rest) as [|c ds] eqn:Hs; [discriminate|].
  inversion H; subst m. exists (String c ds), post.
  repeat split; try assumption; try discriminate.
  now rewrite Hp, Hpost at 1.
Qed.

Lemma match_here_complete : forall ds post,
  ds <> EmptyString -> all_bytes is_digit ds = true ->
  match_here (lowestLiteral ++ ds ++ post) <> None.
Proof.
  intros ds post Hne Hd. unfold match_here.
  rewrite strip_prefix_complete.
  pose proof (span_digits_head ds post Hne Hd) as Hs.
  destruct (span_digits (ds ++ post)); [congruence|discriminate].
Qed.

Lemma find_sound : forall s m,
  FindStringSubmatch s = Some m ->
  contains_pattern s /\ exists ds, m = [lowestLiteral ++ ds; ds] /\
                                   ds <> EmptyString /\
                                   all_bytes is_digit ds = true.
Proof.
  induction s as [|c s IH]; intros m H; simpl in H.
  - discriminate H.
  - destruct (match_here (String c s)) eqn:Hm.
    + inversion H; subst.
      destruct (match_here_sound _ _ Hm) as (ds & post & Hs & Hne & Hd & ->).
      split; [exists EmptyString, ds, post; auto | exists ds; auto].
    + destruct (IH _ H) as [(pre & ds & post & -> & Hne & Hd) Hm'].
      split; [|exact Hm'].
      exists (String c pre), ds, post. auto.
Qed.

Lemma find_of_match_here : forall s,
  match_here s <> None -> FindStringSubmatch s <> None.
Proof.
  intros s H. destruct s; unfold FindStringSubmatch; fold FindStringSubmatch;
    destruct (match_here _); congruence.
Qed.

Lemma find_complete : forall s,
  contains_pattern s -> FindStringSubmatch s <> None.
Proof.
  intros s (pre & ds & post & -> & Hne & Hd).
  induction pre as [|c pre IH].
  - change (EmptyString ++ lowestLiteral ++ ds ++ post)
      with (lowestLiteral ++ ds ++ post).
    apply find_of_match_here, (match_here_complete ds post Hne Hd).
  - simpl. destruct (match_here _); [discriminate|exact IH].
Qed.

(** The scan finds nothing exactly on the texts without the pattern. *)
Lemma find_none_iff : forall s,
  FindStringSubmatch s = None <-> ~ contains_pattern s.
Proof.
  intros s; split.
  - intros H Hc. now apply (find_complete s Hc).
  - intros Hn. destruct (FindStringSubmatch s) eqn:E; [|reflexivity].
    exfalso. apply Hn. now apply (find_sound s l).
Qed.

Lemma parse_digits_nonneg : forall s acc v,
  0 <= acc -> parse_digits acc s = Some v -> 0 <= v.
Proof.
  induction s as [|c s IH]; intros acc v Hacc H; cbn [parse_digits] in H.
  - inversion H; subst; assumption.
  - destruct (is_digit c) eqn:Hd; [|discriminate].
    apply IH in H; [exact H|].
    unfold is_digit in Hd. apply andb_prop in Hd as [H1 _].
    apply Nat.leb_le in H1. unfold digit_val. lia.
Qed.

(** Whatever [ParseUint] accepts is a [uint64]. *)
Lemma ParseUint_range : forall s v, ParseUint s = Ok v -> is_uint64 v.
Proof.
  unfold ParseUint. intros s v H.
  destruct s as [|c s]; [discriminate|].
  destruct (parse_digits 0 (String c s)) as [x|] eqn:Hp; [|discriminate].
  destruct (x <=? uint64_max) eqn:Hle; [|discriminate].
  inversion H; subst. split.
  - apply (parse_digits_nonneg _ 0 _ (Z.le_refl 0) Hp).
  - now apply Z.leb_le.
Qed.

Lemma parseLowest_range : forall f s,
  is_uint64 (parseLowestHeightFromError f s).
Proof.
  intros f s. unfold parseLowestHeightFromError.
  assert (Z0 : is_uint64 0) by (unfold is_uint64, uint64_max, uint64_modulus; simpl; lia).
  destruct (FindStringSubmatch _) as [[|x [|g1 l]]|]; try exact Z0.
  destruct (ParseUint g1) eqn:E; [|exact Z0].
  now apply (ParseUint_range g1).
Qed.

(** When the scan finds the pattern, the height is the number its digits
    spell, or 0 when that number does not fit a [uint64]. *)
Lemma parseLowest_found : forall f s whole ds,
  FindStringSubmatch (strings_ToLower f s) = Some [whole; ds] ->
  parseLowestHeightFromError f s =
  match ParseUint ds with Ok v => v | Err _ => 0 end.
Proof.
  intros f s whole ds H. unfold parseLowestHeightFromError. now rewrite H.
Qed.

(** C8: on the error text of a pruned node the lowest height is read off,
    and a text that (lowered) holds no [lowest height is <digits>] gives 0. *)
Theorem parseLowestHeightFromError_spec : forall f : string -> string,
  parseLowestHeightFromError f
    "height 1 is not available, lowest height is 28566001" = 28566001 /\
  (forall s, ~ contains_pattern (strings_ToLower f s) ->
             parseLowestHeightFromError f s = 0).
Proof.
  intros f; split; [reflexivity|].
  intros s Hn. unfold parseLowestHeightFromError.
  apply find_none_iff in Hn. now rewrite Hn.
Qed.

Lemma parseLowestHeightFromError_spec_witness :
  ~ contains_pattern (strings_ToLower (fun s => s) "Connection REFUSED") /\
  parseLowestHeightFromError (fun s => s) "Connection REFUSED" = 0.
Proof.
  assert (H : ~ contains_pattern (strings_ToLower (fun s => s) "Connection REFUSED")).
  { apply find_none_iff. vm_compute. reflexivity. }
  split; [exact H|].
  exact (proj2 (parseLowestHeightFromError_spec (fun s => s)) _ H).
Defined.

End UtilsFacts.

(* ================================================================== *)
(** * Properties of the earliest-height probe *)

Module ProbeFacts.
Import Utils Probes UtilsFacts Sim.

(** Unfolds the monad and the recorded calls. *)
Ltac run_m :=
  unfold bind, ret, rpc, callEnv, callSink, readEnv, slog, emit in *;
  cbn [env sink trace fst snd] in *.

Section ProbeFacts.
Context {Env Sink : Type} `{P : Platform Env} `{O : OutputHandler Sink}.
Local Abbreviation World := (World Env Sink).


(** C10: without an error the height returned is at least 1; with an error
    it is 0. So 0 never comes back with a nil error. *)
Theorem GetEarliestBlockHeight_positive :
  forall (c : GRPCClient) (maxRetries : Z) (w : World),
    let out := snd (GetEarliestBlockHeight c maxRetries w) in
    match snd out with
    | None => 1 <= fst out
    | Some _ => fst out = 0
    end.
Proof.
  intros c maxRetries w.
  unfold GetEarliestBlockHeight. run_m.
  destruct (GetGRPCResponse c getBlockByHeightMethod 1 _ (env w))
    as [n1 [body|err]]; cbn; [lia|].
  destruct (0 <? parseLowestHeightFromError unicodeLower (Error err)) eqn:Hpos.
  - cbn. apply Z.ltb_lt in Hpos. lia.
  - cbn [env sink trace].
    destruct (GetGRPCResponse c getBlockByHeightMethod maxRetries _ n1)
      as [n2 [body2|err2]]; cbn; [lia|reflexivity].
Qed.

End ProbeFacts.

(** Scenario "pruned catch-up": the node refuses height 1 and names its
    lowest height, which the probe returns after a single call. *)
Example pruned_node_probe :
  let node := Sim.mkSimEnv 0 None 0
      (fun _ _ => Err (errors_New
         "rpc error: code = InvalidArgument desc = height 1 is not available, lowest height is 50"))
      (Ok "120") in
  let out := GetEarliestBlockHeight Sim.rootClient 3 (Sim.start node Sim.emptySink) in
  snd out = (50, None) /\ trace (fst out) = [probeCall 1].
Proof. vm_compute. split; reflexivity. Qed.

End ProbeFacts.

(* ================================================================== *)
(** * Properties of the block fetcher and of the gap repairer *)

Module ExtractorFacts.
Import Utils Probes Extractor Spec Sim.
Import ProbeFacts.

Lemma skipn_app_length : forall (A : Type) (l l' : list A),
  skipn (List.length l) (l ++ l') = l'.
Proof. induction l as [|a l IH]; intros l'; simpl; [reflexivity|apply IH]. Qed.

Section ExtractorFacts.
Context {Env Sink : Type} `{P : Platform Env} `{O : OutputHandler Sink}.
Local Abbreviation World := (World Env Sink).

(** The four ways through [processSingleBlockWithRetry], with the world
    each leaves. *)
Lemma processSingleBlockWithRetry_cases :
  forall (c : GRPCClient) (h maxRetries : Z) (w : World),
    let run := processSingleBlockWithRetry c h maxRetries w in
    let (n1, fetched) :=
      GetGRPCResponse c blockMethodFullName maxRetries (heightParams h) (env w) in
    match fetched with
    | Err err =>
        run = (mkWorld n1 (sink w) (trace w ++ [blockCall maxRetries h]),
               Some (Wrap "failed to get block data" err))
    | Ok bytes =>
        match json_Unmarshal bytes with
        | Err err =>
            run = (mkWorld n1 (sink w) (trace w ++ [blockCall maxRetries h]),
                   Some (Wrap "failed to unmarshal block JSON" err))
        | Ok data =>
            let (n2, extracted) := extractTransactions c data maxRetries n1 in
            match extracted with
            | Err err =>
                run = (mkWorld n2 (sink w)
                         (trace w ++ [blockCall maxRetries h;
                                      EvExtractTransactions maxRetries]),
                       Some (Wrap "failed to extract transactions from block" err))
            | Ok transactions =>
                let block := mkBlock h bytes in
                let (s', e) :=
                  WriteBlockWithTransactions (ctx_Err (Ctx c) n2) block
                                             transactions (sink w) in
                run = (mkWorld n2 s'
                         (trace w ++ [blockCall maxRetries h;
                                      EvExtractTransactions maxRetries;
                                      EvWriteBlockWithTransactions block transactions]),
                       option_map (Wrap "failed to write block with transactions") e)
            end
        end
    end.
Proof.
  intros c h maxRetries w run. subst run.
  unfold processSingleBlockWithRetry, blockCall. run_m.
  destruct (GetGRPCResponse c blockMethodFullName maxRetries (heightParams h) (env w))
    as [n1 [bytes|err]]; [|reflexivity].
  destruct (json_Unmarshal bytes) as [data|err]; [|reflexivity].
  cbn [env sink trace].
  destruct (extractTransactions c data maxRetries n1) as [n2 [txs|err]];
    [|rewrite <- app_assoc; reflexivity].
  cbn [env sink trace].
  destruct (WriteBlockWithTransactions (ctx_Err (Ctx c) n2) (mkBlock h bytes) txs (sink w))
    as [s' [err|]]; rewrite <- !app_assoc; reflexivity.
Qed.

(** C2: the block and the transactions extracted from it reach the sink in
    one [WriteBlockWithTransactions] call, the only sink write made for the
    height; when the fetch, the JSON decoding or the extraction fails, no
    sink write is made and the sink is left as it was. *)
Theorem processSingleBlockWithRetry_spec :
  forall (c : GRPCClient) (h maxRetries : Z) (w : World),
    let (w', res) := processSingleBlockWithRetry c h maxRetries w in
    let writes := sinkWrites (newEvents w w') in
    let (n1, fetched) :=
      GetGRPCResponse c blockMethodFullName maxRetries (heightParams h) (env w) in
    match fetched with
    | Err err =>
        writes = [] /\ sink w' = sink w /\
        res = Some (Wrap "failed to get block data" err)
    | Ok bytes =>
        match json_Unmarshal bytes with
        | Err err =>
            writes = [] /\ sink w' = sink w /\
            res = Some (Wrap "failed to unmarshal block JSON" err)
        | Ok data =>
            let (n2, extracted) := extractTransactions c data maxRetries n1 in
            match extracted with
            | Err err =>
                writes = [] /\ sink w' = sink w /\
                res = Some (Wrap "failed to extract transactions from block" err)
            | Ok transactions =>
                let block := mkBlock h bytes in
                let (s', e) :=
                  WriteBlockWithTransactions (ctx_Err (Ctx c) n2) block
                                             transactions (sink w) in
                writes = [EvWriteBlockWithTransactions block transactions] /\
                sink w' = s' /\
                res = option_map (Wrap "failed to write block with transactions") e
            end
        end
    end.
Proof.
  intros c h maxRetries w.
  pose proof (processSingleBlockWithRetry_cases c h maxRetries w) as S.
  cbv zeta in S |- *.
  destruct (GetGRPCResponse c blockMethodFullName maxRetries (heightParams h) (env w))
    as [n1 [bytes|err]].
  2:{ rewrite S. unfold newEvents; cbn [trace sink].
      rewrite skipn_app_length. auto. }
  destruct (json_Unmarshal bytes) as [data|err].
  2:{ rewrite S. unfold newEvents; cbn [trace sink].
      rewrite skipn_app_length. auto. }
  destruct (extractTransactions c data maxRetries n1) as [n2 [txs|err]].
  2:{ rewrite S. unfold newEvents; cbn [trace sink].
      rewrite skipn_app_length. auto. }
  destruct (WriteBlockWithTransactions _ _ _ _) as [s' e].
  rewrite S. unfold newEvents; cbn [trace sink].
  rewrite skipn_app_length. auto.
Qed.

(** The ways through [processSingleBlockWithResultsAndRetry], with the
    world each leaves. *)
Lemma processSingleBlockWithResultsAndRetry_cases :
  forall (c : GRPCClient) (h maxRetries : Z) (w : World),
    let run := processSingleBlockWithResultsAndRetry c h maxRetries w in
    let (w1, e) := processSingleBlockWithRetry c h maxRetries w in
    match e with
    | Some err => run = (w1, Some err)
    | None =>
        let (n2, fetched) :=
          GetGRPCResponse c blockResultsMethodFullName maxRetries
                          (heightParams h) (env w1) in
        match fetched with
        | Err err =>
            run = (mkWorld n2 (sink w1)
                     (trace w1 ++
                      [resultsCall maxRetries h;
                       EvSlog Warn
                         "Failed to fetch block results (node may not support GetBlockResults)"]),
                   None)
        | Ok bytes =>
            let blockResults := mkBlockResults h bytes in
            let (s', e2) :=
              WriteBlockResults (ctx_Err (Ctx c) n2) blockResults (sink w1) in
            run = (mkWorld n2 s'
                     (trace w1 ++ [resultsCall maxRetries h;
                                   EvWriteBlockResults blockResults]),
                   option_map (Wrap "failed to write block results") e2)
        end
    end.
Proof.
  intros c h maxRetries w run. subst run.
  unfold processSingleBlockWithResultsAndRetry, fetchBlockResults, resultsCall.
  run_m. cbv beta.
  destruct (processSingleBlockWithRetry c h maxRetries w) as [w1 [err|]];
    [reflexivity|].
  destruct (GetGRPCResponse c blockResultsMethodFullName maxRetries
                            (heightParams h) (env w1)) as [n2 [bytes|err]];
    cbn [env sink trace].
  - destruct (WriteBlockResults (ctx_Err (Ctx c) n2) (mkBlockResults h bytes) (sink w1))
      as [s' [err|]]; rewrite <- app_assoc; reflexivity.
  - rewrite <- app_assoc. reflexivity.
Qed.

(** Every attempt on a height opens with the request for its block, made
    with the configured retry budget. *)
Lemma processOne_first_call :
  forall (cfg : ExtractConfig) (c : GRPCClient) (h : Z) (w : World),
    exists evs,
      trace (fst (processOne cfg c h w)) =
      (trace w ++ blockCall (MaxRetries cfg) h :: evs)%list.
Proof.
  intros cfg c h w.
  assert (B : exists evs,
             trace (fst (processSingleBlockWithRetry c h (MaxRetries cfg) w)) =
             (trace w ++ blockCall (MaxRetries cfg) h :: evs)%list).
  { pose proof (processSingleBlockWithRetry_cases c h (MaxRetries cfg) w) as S.
    cbv zeta in S.
    destruct (GetGRPCResponse _ _ _ _ _) as [n1 [bytes|err]];
      [|rewrite S; now exists []].
    destruct (json_Unmarshal bytes) as [data|err]; [|rewrite S; now exists []].
    destruct (extractTransactions _ _ _ _) as [n2 [txs|err]];
      [|rewrite S; eexists; reflexivity].
    destruct (WriteBlockWithTransactions _ _ _ _) as [s' e].
    rewrite S. eexists; reflexivity. }
  unfold processOne. destruct (EnableBlockResults cfg); [|exact B].
  destruct B as [evs B].
  pose proof (processSingleBlockWithResultsAndRetry_cases c h (MaxRetries cfg) w) as S.
  cbv zeta in S.
  destruct (processSingleBlockWithRetry c h (MaxRetries cfg) w) as [w1 [err|]];
    cbn [fst] in B.
  - rewrite S. now exists evs.
  - destruct (GetGRPCResponse _ _ _ _ _) as [n2 [bytes|err]].
    + destruct (WriteBlockResults _ _ _) as [s' e2]. rewrite S. cbn [fst trace].
      rewrite B, <- app_assoc. eexists; reflexivity.
    + rewrite S. cbn [fst trace]. rewrite B, <- app_assoc. eexists; reflexivity.
Qed.

(** C3, as the code has it: an error of the block-results request is logged
    and swallowed, the height succeeds and the sink is not touched again; an
    error of the sink when the fetched results are written is returned,
    wrapped; a failure of the block itself is returned as it is. *)
Theorem processSingleBlockWithResultsAndRetry_spec :
  forall (c : GRPCClient) (h maxRetries : Z) (w : World),
    let (w1, e) := processSingleBlockWithRetry c h maxRetries w in
    let (w', res) := processSingleBlockWithResultsAndRetry c h maxRetries w in
    match e with
    | Some err => w' = w1 /\ res = Some err
    | None =>
        let (n2, fetched) :=
          GetGRPCResponse c blockResultsMethodFullName maxRetries
                          (heightParams h) (env w1) in
        match fetched with
        | Err err =>
            res = None /\ sink w' = sink w1 /\
            newEvents w1 w' =
            [resultsCall maxRetries h;
             EvSlog Warn
               "Failed to fetch block results (node may not support GetBlockResults)"]
        | Ok bytes =>
            let blockResults := mkBlockResults h bytes in
            let (s', e2) :=
              WriteBlockResults (ctx_Err (Ctx c) n2) blockResults (sink w1) in
            res = option_map (Wrap "failed to write block results") e2 /\
            sink w' = s' /\
            newEvents w1 w' =
            [resultsCall maxRetries h; EvWriteBlockResults blockResults]
        end
    end.
Proof.
  intros c h maxRetries w.
  pose proof (processSingleBlockWithResultsAndRetry_cases c h maxRetries w) as S.
  cbv zeta in S |- *.
  destruct (processSingleBlockWithRetry c h maxRetries w) as [w1 [err|]].
  - rewrite S. auto.
  - destruct (GetGRPCResponse c blockResultsMethodFullName maxRetries
                              (heightParams h) (env w1)) as [n2 [bytes|err]].
    + destruct (WriteBlockResults _ _ _) as [s' e2]. rewrite S.
      unfold newEvents; cbn [trace sink]. rewrite skipn_app_length. auto.
    + rewrite S. unfold newEvents; cbn [trace sink].
      rewrite skipn_app_length. auto.
Qed.



End ExtractorFacts.

(** Scenario "gap repair": the sink misses height 3; the repairer fetches
    that block and no other. *)
Example gap_repair_fetches_the_gap :
  let sink0 := mkSimSink [] [] [] (Ok [3]) None in
  let out := processMissingBlocks rootClient (mkConfig 3 5 2 false)
                                  (start (healthyNode 5) sink0) in
  snd out = None /\
  map ID (blocks (sink (fst out))) = [3] /\
  filter (fun e => match e with EvGetGRPCResponse _ _ _ => true | _ => false end)
         (trace (fst out)) = [blockCall 3 3].
Proof. vm_compute. repeat split; reflexivity. Qed.

(** Scenario "block results unsupported": the node does not implement the
    results method; the block and its transactions are stored, no results
    row is written, a warning is logged and the height succeeds. *)
Example results_unsupported :
  let node := mkSimEnv 0 None 0
      (fun method params =>
         if String.eqb method simResultsMethod
         then Err (errors_New "rpc error: code = Unimplemented")
         else Ok ("block " ++ params))
      (Ok "10") in
  let out := processSingleBlockWithResultsAndRetry rootClient 7 3
                                                   (start node emptySink) in
  snd out = None /\
  map ID (blocks (sink (fst out))) = [7] /\
  results (sink (fst out)) = [] /\
  In (EvSlog Warn
        "Failed to fetch block results (node may not support GetBlockResults)")
     (trace (fst out)).
Proof. vm_compute. repeat split; try reflexivity. auto 10. Qed.

(** C3 as the specification words it fails: the node serves the block
    results, the sink refuses them, and the height fails. *)
Lemma results_write_error_not_swallowed :
  ~ results_best_effort rootClient 7 3
      (start (healthyNode 10)
             (mkSimSink [] [] [] (Ok []) (Some (errors_New "connection reset")))).
Proof.
  unfold results_best_effort. intros H.
  assert (E : snd (processSingleBlockWithRetry rootClient 7 3
               (start (healthyNode 10)
                  (mkSimSink [] [] [] (Ok [])
                     (Some (errors_New "connection reset"))))) = None)
    by (vm_compute; reflexivity).
  specialize (H E). vm_compute in H. discriminate H.
Qed.

End ExtractorFacts.

(* ================================================================== *)
(** * Properties of the parallel driver *)

Module DriverFacts.
Import Utils Probes Extractor Driver Spec Sim.
Import ProbeFacts ExtractorFacts.

Lemma taskResults_app : forall a b,
  taskResults (a ++ b) = (taskResults a ++ taskResults b)%list.
Proof.
  induction a as [|e a IH]; intros b; [reflexivity|].
  destruct e; cbn [app taskResults]; rewrite ?IH; reflexivity.
Qed.

Lemma taskErrors_app : forall a b,
  taskErrors (a ++ b) = (taskErrors a ++ taskErrors b)%list.
Proof.
  induction a as [|e a IH]; intros b; [reflexivity|].
  destruct e as [| | | | | | | | |h f [err|]];
    cbn [app taskErrors]; rewrite ?IH; reflexivity.
Qed.

Section Quiet.
Context {Env Sink : Type} `{P : Platform Env} `{O : OutputHandler Sink}.
Local Abbreviation World := (World Env Sink).
Local Abbreviation M := (M (Env:=Env) (Sink:=Sink)).

Lemma Quiet_ret : forall (A : Type) (a : A), Quiet (ret a : M A).
Proof. intros A a w. exists []. cbn. now rewrite app_nil_r. Qed.

Lemma Quiet_bind : forall (A B : Type) (m : M A) (k : A -> M B),
  Quiet m -> (forall a, Quiet (k a)) -> Quiet (bind m k).
Proof.
  intros A B m k Hm Hk w. unfold bind.
  destruct (Hm w) as (e1 & T1 & Q1).
  destruct (m w) as [w1 a]. cbn [fst] in T1.
  destruct (Hk a w1) as (e2 & T2 & Q2).
  exists (e1 ++ e2)%list. split.
  - now rewrite T2, T1, app_assoc.
  - now rewrite taskResults_app, Q1, Q2.
Qed.

Lemma Quiet_emit : forall e, taskResults [e] = [] -> Quiet (emit e : M unit).
Proof. intros e He w. exists [e]. now split. Qed.

Lemma Quiet_callEnv : forall (A : Type) e (f : Env -> Env * A),
  taskResults [e] = [] -> Quiet (callEnv e f : M A).
Proof.
  intros A e f He w. exists [e]. unfold callEnv.
  destruct (f (env w)); now split.
Qed.

Lemma Quiet_callSink : forall (A : Type) e (f : Sink -> Sink * A),
  taskResults [e] = [] -> Quiet (callSink e f : M A).
Proof.
  intros A e f He w. exists [e]. unfold callSink.
  destruct (f (sink w)); now split.
Qed.

Lemma Quiet_readEnv : forall (A : Type) (f : Env -> A), Quiet (readEnv f : M A).
Proof. intros A f w. exists []. cbn. now rewrite app_nil_r. Qed.

End Quiet.

(** Breaks a computation into its calls. *)
Ltac quiet :=
  repeat first
    [ apply Quiet_ret
    | apply Quiet_readEnv
    | apply Quiet_emit; reflexivity
    | apply Quiet_callEnv; reflexivity
    | apply Quiet_callSink; reflexivity
    | apply Quiet_bind; [|intros ?]
    | match goal with
      | |- Quiet (match ?x with _ => _ end) => destruct x
      end ].

Section DriverFacts.
Context {Env Sink : Type} `{P : Platform Env} `{O : OutputHandler Sink}.
Local Abbreviation World := (World Env Sink).

Lemma Quiet_processSingleBlockWithRetry : forall c h maxRetries,
  Quiet (processSingleBlockWithRetry c h maxRetries).
Proof. intros. unfold processSingleBlockWithRetry, rpc. quiet. Qed.

Lemma Quiet_processSingleBlockWithResultsAndRetry : forall c h maxRetries,
  Quiet (processSingleBlockWithResultsAndRetry c h maxRetries).
Proof.
  intros. unfold processSingleBlockWithResultsAndRetry.
  apply Quiet_bind; [apply Quiet_processSingleBlockWithRetry|].
  intros [err|]; unfold fetchBlockResults, rpc, slog; quiet.
Qed.

Lemma Quiet_processOne : forall cfg c h, Quiet (processOne cfg c h).
Proof.
  intros. unfold processOne. destruct (EnableBlockResults cfg);
    [apply Quiet_processSingleBlockWithResultsAndRetry
    |apply Quiet_processSingleBlockWithRetry].
Qed.

Lemma Quiet_blockTask : forall cfg parent bar g h,
  Quiet (blockTask cfg parent bar g h).
Proof.
  intros. unfold blockTask.
  apply Quiet_bind; [apply Quiet_processOne|].
  intros [err|]; unfold slog; quiet.
Qed.

(** What the goroutine returns, from what processing the block returned. *)
Lemma blockTask_result : forall cfg parent bar g h (w : World),
  snd (blockTask cfg parent bar g h w) =
  match snd (processOne cfg (mkClient (groupCtx parent g)) h w) with
  | None => None
  | Some err =>
      if Is_Canceled err
      then Some (Wrap ("failed to process block " ++ fmt_d h) err)
      else Some err
  end.
Proof.
  intros. unfold blockTask. unfold bind at 1.
  destruct (processOne cfg (mkClient (groupCtx parent g)) h w) as [w1 [err|]];
    cbn [snd].
  - destruct (Is_Canceled err); reflexivity.
  - destruct bar; [|reflexivity]. run_m.
    destruct (bar_Add (env w1)) as [n [e|]]; reflexivity.
Qed.

Lemma blockTask_shape : forall cfg parent bar g h f (w : World),
  taskShape (h, f, snd (blockTask cfg parent bar g h w)).
Proof.
  intros. rewrite blockTask_result.
  destruct (snd (processOne _ _ _ _)) as [err|]; [|exact I].
  destruct (Is_Canceled err) eqn:E; cbn; [right; eauto|left; exact E].
Qed.

(** The state of a run that ends in [eg.Wait()]: the error returned is the
    first one handed to the group, before this point or after it. *)
Lemma runBlocks_wait_inv :
  forall cfg parent stop bar sched height g (w w' : World) r,
    runBlocks cfg parent stop bar sched height g w = Some (w', (WaitReturn, r)) ->
    exists evs,
      trace w' = (trace w ++ evs)%list /\
      r = option_map (Wrap "error while fetching blocks")
            (match gErr g with
             | Some e => Some e
             | None => firstError (taskResults evs)
             end) /\
      peersCancelled (isSome (gErr g)) (taskResults evs) /\
      Forall taskShape (taskResults evs).
Proof.
  intros cfg parent stop bar sched.
  induction sched as [|ch sched IH]; intros height g w w' r H;
    cbn [runBlocks] in H.
  - destruct ((stop <? height) && _); [|discriminate].
    inversion H; subst. exists []. rewrite app_nil_r.
    cbn. destruct (gErr g); auto.
  - destruct ch as [|h].
    + destruct (height <=? stop); [|discriminate].
      destruct (ctx_Err (groupCtx parent g) (env w)).
      * cbn in H. discriminate H.
      * destruct (_ <? MaxConcurrency cfg); [|discriminate].
        apply IH in H. exact H.
    + destruct (existsb (Z.eqb h) (running g)); [|discriminate].
      pose proof (Quiet_blockTask cfg parent bar g h w) as (e1 & T1 & Q1).
      pose proof (blockTask_shape cfg parent bar g h (isSome (gErr g)) w) as Sh.
      destruct (blockTask cfg parent bar g h w) as [w1 r0].
      cbn [fst snd] in T1, Sh. unfold emit in H. cbn [env sink trace] in H.
      apply IH in H. destruct H as (e2 & T2 & -> & PC & Shs).
      cbn [trace recordResult gErr] in T2, PC |- *.
      exists (e1 ++ EvTaskDone h (isSome (gErr g)) r0 :: e2)%list.
      rewrite taskResults_app, Q1. cbn [app taskResults].
      repeat split.
      * rewrite T2, T1, <- !app_assoc. reflexivity.
      * destruct (gErr g); [reflexivity|]. destruct r0; reflexivity.
      * destruct (gErr g); [exact PC|]. destruct r0; exact PC.
      * constructor; assumption.
Qed.


(** A range that does not reach the top of [uint64] can always be run to a
    [return], one goroutine at a time, as soon as [sem] has a slot. *)
Lemma runBlocks_sequential :
  forall cfg parent stop bar n height e (w : World),
    1 <= MaxConcurrency cfg ->
    0 <= height -> stop < uint64_max ->
    Z.of_nat n = Z.max 0 (stop - height + 1) ->
    runBlocks cfg parent stop bar (sequential height n) height (mkGroup e []) w
    <> None.
Proof.
  intros cfg parent stop bar n.
  induction n as [|n IH]; intros height e w Hc Hh Hs Hn; cbn [sequential runBlocks].
  - replace (stop <? height) with true by (symmetry; apply Z.ltb_lt; lia).
    cbn. discriminate.
  - replace (height <=? stop) with true by (symmetry; apply Z.leb_le; lia).
    destruct (ctx_Err _ _); [cbn; discriminate|].
    cbn [running List.length].
    replace (Z.of_nat 0 <? MaxConcurrency cfg) with true
      by (symmetry; apply Z.ltb_lt; lia).
    cbn [existsb app gErr running]. rewrite Z.eqb_refl. cbn [orb].
    destruct (blockTask _ _ _ _ _ _) as [w1 r0].
    unfold emit, recordResult. cbn [env sink trace gErr running remove_first].
    rewrite Z.eqb_refl.
    replace (add64 height 1) with (height + 1).
    + apply IH; try assumption; lia.
    + unfold add64, wrap64. rewrite Z.mod_small; [reflexivity|].
      unfold uint64_max in Hs. lia.
Qed.

(** So [processBlocks] has a complete run on every such range. *)
Lemma processBlocks_sequential_returns :
  forall c start stop cfg bar (w : World),
    1 <= MaxConcurrency cfg ->
    0 <= start -> stop < uint64_max ->
    processBlocks (sequential start (Z.to_nat (stop - start + 1)))
                  c start stop cfg bar w <> None.
Proof.
  intros c start stop cfg bar w Hc Hs Ht. unfold processBlocks.
  apply runBlocks_sequential; try assumption. lia.
Qed.

End DriverFacts.



(** The [return] inside the loop: height 1 fails with an error of the node,
    the group cancels its context, and the next iteration of the loop
    returns [ctx.Err()], a bare cancellation, in place of that error. *)
Example loop_return_hides_task_error :
  let node := mkSimEnv 0 None 0
      (fun _ params =>
         if String.eqb params (heightParams 1)
         then Err (errors_New "rpc error: code = Internal")
         else Ok params)
      (Ok "10") in
  option_map snd
    (processBlocks [Spawn; Finish 1; Spawn] rootClient 1 3
                   (mkConfig 3 2 2 false) false (start node emptySink))
  = Some (LoopReturn, Some context_Canceled).
Proof. vm_compute. reflexivity. Qed.

End DriverFacts.

(* ================================================================== *)
(** * Properties of the live tailer *)

Module TailerFacts.
Import Utils Probes Extractor Driver Spec Sim.
Import UtilsFacts ProbeFacts ExtractorFacts DriverFacts.

Lemma uint64_max_value : uint64_max = 18446744073709551615.
Proof. reflexivity. Qed.


Lemma sub64_pos : forall start,
  1 <= start <= uint64_max -> sub64 start 1 = start - 1.
Proof.
  intros start H. unfold sub64, wrap64.
  rewrite Z.mod_small; [reflexivity|].
  rewrite uint64_max_value in H. unfold uint64_modulus. lia.
Qed.

Lemma sub64_range : forall start, is_uint64 (sub64 start 1).
Proof.
  intros start. unfold sub64, wrap64, is_uint64, uint64_max.
  pose proof (Z.mod_pos_bound (start - 1) uint64_modulus) as B.
  unfold uint64_modulus in *. lia.
Qed.

(** Inside a range below a [uint64] bound, [+ 1] does not wrap. *)
Lemma add64_below : forall cur latest,
  is_uint64 cur -> is_uint64 latest -> cur < latest -> add64 cur 1 = cur + 1.
Proof.
  intros cur latest [Hc _] [_ Hl] Hlt. unfold add64, wrap64.
  rewrite Z.mod_small; [reflexivity|].
  rewrite uint64_max_value in Hl. unfold uint64_modulus. lia.
Qed.

Section TailerFacts.
Context {Env Sink : Type} `{P : Platform Env} `{O : OutputHandler Sink}.
Local Abbreviation World := (World Env Sink).

(** The height probe makes one request, leaves the sink alone and answers
    with a [uint64]. *)
Lemma GetLatestBlockHeightWithRetry_spec : forall c cfg (w : World),
  let (w1, polled) := GetLatestBlockHeightWithRetry c (MaxRetries cfg) w in
  sink w1 = sink w /\
  trace w1 = (trace w ++ [pollCall cfg])%list /\
  match polled with
  | Ok latest => is_uint64 latest
  | Err _ => True
  end.
Proof.
  intros c cfg w.
  unfold GetLatestBlockHeightWithRetry, ExtractGRPCField, pollCall. run_m.
  destruct (fieldRequest c statusMethod (MaxRetries cfg) "height" (env w))
    as [n [s|err]]; cbn [sink trace]; [|auto].
  destruct (ParseUint s) as [latest|err] eqn:E;
    (split; [reflexivity|split; [reflexivity|]]);
    [now apply (ParseUint_range s)|exact I].
Qed.

Lemma pollSleep_world : forall cfg (w : World),
  fst (pollSleep cfg w) =
  mkWorld (time_Sleep (sleepDuration cfg) (env w)) (sink w)
          (trace w ++ [EvSleep (sleepDuration cfg)]).
Proof. reflexivity. Qed.


(** The loop keeps [currentHeight] a [uint64]. *)
Lemma liveIteration_range : forall sched c cfg cur (w w' : World) h,
  is_uint64 cur ->
  liveIteration sched c cfg cur w = Some (w', Continue h) ->
  is_uint64 h.
Proof.
  intros sched c cfg cur w w' h Hcur H.
  unfold liveIteration in H.
  destruct (ctx_Err (Ctx c) (env w)); [discriminate|].
  pose proof (GetLatestBlockHeightWithRetry_spec c cfg w) as L.
  destruct (GetLatestBlockHeightWithRetry c (MaxRetries cfg) w)
    as [w1 [latest|err]]; [|discriminate].
  destruct L as (_ & _ & Hl).
  destruct (cur <? latest).
  - destruct (extractBlocksAndTransactions _ _ _ _ _ _) as [[w2 [err|]]|];
      try discriminate.
    inversion H; subst; assumption.
  - inversion H; subst; assumption.
Qed.




(** C7, as the code has it: an iteration that goes on has slept with
    [time.Sleep] for the whole interval, whatever the state of the context;
    a cancellation that arrived meanwhile is seen at the top of the next
    iteration, where the tailer returns nil without another poll. *)
Theorem pollSleep_runs_in_full :
  forall s1 s2 rest c cfg currentHeight (w w1 : World) h,
    liveIteration s1 c cfg currentHeight w = Some (w1, Continue h) ->
    (exists w0,
        w1 = mkWorld (time_Sleep (sleepDuration cfg) (env w0)) (sink w0)
                     (trace w0 ++ [EvSleep (sleepDuration cfg)])) /\
    (ctx_Err (Ctx c) (env w1) = true ->
     liveLoop (s1 :: s2 :: rest) c cfg currentHeight w = Some (w1, Return None)).
Proof.
  intros s1 s2 rest c cfg cur w w1 h H. split.
  - unfold liveIteration in H.
    destruct (ctx_Err (Ctx c) (env w)); [discriminate|].
    destruct (GetLatestBlockHeightWithRetry c (MaxRetries cfg) w)
      as [w0 [latest|err]]; [|discriminate].
    destruct (cur <? latest).
    + destruct (extractBlocksAndTransactions _ _ _ _ _ _) as [[w2 [err|]]|];
        try discriminate.
      inversion H; subst. exists w2. apply pollSleep_world.
    + inversion H; subst. exists w0. apply pollSleep_world.
  - intros Hdone. cbn [liveLoop]. rewrite H. unfold liveIteration.
    now rewrite Hdone.
Qed.

End TailerFacts.

(** On the scripted node [time.Sleep] lets the whole interval pass. *)
Lemma simSleep_full : forall d n,
  clock (simSleep d n) = clock n + Z.max d 0.
Proof. reflexivity. Qed.



(** The signal arrives 3 s into a 10 s sleep; the sleep ends at 10 s and
    only then does the tailer return. *)
Lemma pollSleep_runs_in_full_witness :
  exists w1,
    liveIteration [] rootClient tenSeconds 10 idleTail = Some (w1, Continue 10) /\
    ctx_Err RootCtx (env w1) = true /\
    liveLoop [[]; []] rootClient tenSeconds 10 idleTail = Some (w1, Return None) /\
    clock (env w1) = 10000000000.
Proof.
  eexists. split; [vm_compute; reflexivity|].
  split; [vm_compute; reflexivity|].
  split; [|vm_compute; reflexivity].
  refine (proj2 (pollSleep_runs_in_full (P:=simPlatform) (O:=simSink)
                   [] [] [] rootClient tenSeconds 10 idleTail _ 10 _) _);
    vm_compute; reflexivity.
Defined.

(** C7 as the specification words it fails: the signal arrives at 3 s and
    the tailer is still asleep until 10 s. *)
Lemma sleep_outlasts_cancellation :
  ~ sleep_aborted_by_cancel [[]; []] rootClient 11 tenSeconds idleTail.
Proof.
  unfold sleep_aborted_by_cancel. intros H.
  destruct (extractLiveBlocksAndTransactions [[]; []] rootClient 11 tenSeconds idleTail)
    as [[w' st]|] eqn:E; vm_compute in E; [|discriminate E].
  specialize (H 3000000000 w' st eq_refl ltac:(vm_compute; discriminate) eq_refl).
  inversion E; subst; clear E.
  vm_compute in H. apply H. reflexivity.
Qed.

End TailerFacts.

(* ================================================================== *)
(** * Decimal text: what [%d] prints, [strconv.ParseUint] reads back *)

Module FormatFacts.
Import Utils Observe UtilsFacts.

Lemma parse_digits_string_of_uint : forall d acc,
  parse_digits acc (NilEmpty.string_of_uint d) = Some (uint_value acc d).
Proof.
  induction d; intros acc; cbn [NilEmpty.string_of_uint parse_digits uint_value];
    [reflexivity|..];
    match goal with
    | |- context [is_digit ?c] =>
        change (is_digit c) with true; cbv iota
    end;
    rewrite <- IHd; reflexivity.
Qed.

Lemma uint_value_spec : forall d acc,
  uint_value acc d =
  Z.of_N (DecimalPos.Unsigned.of_lu (Decimal.rev d)) +
  acc * 10 ^ Z.of_N (DecimalPos.Unsigned.usize d).
Proof.
  induction d; intros acc;
    [cbn [uint_value DecimalPos.Unsigned.usize Decimal.rev Decimal.revapp
            DecimalPos.Unsigned.of_lu Z.of_N];
     rewrite Z.pow_0_r; lia|..];
    cbn [uint_value DecimalPos.Unsigned.usize];
    unfold Decimal.rev; cbn [Decimal.revapp];
    rewrite DecimalPos.Unsigned.of_lu_revapp, IHd;
    fold (Decimal.rev d);
    rewrite N2Z.inj_add, N2Z.inj_mul, N2Z.inj_pow, N2Z.inj_succ;
    rewrite Z.pow_succ_r by apply N2Z.is_nonneg;
    cbn [DecimalPos.Unsigned.of_lu]; rewrite ?N.mul_0_r, ?N.add_0_r;
    cbn [Z.of_N]; ring.
Qed.

(** The digits [%d] prints spell the number printed. *)
Lemma parse_digits_fmt_d : forall z,
  0 <= z -> parse_digits 0 (fmt_d z) = Some z.
Proof.
  intros z Hz. unfold fmt_d.
  rewrite parse_digits_string_of_uint, uint_value_spec.
  rewrite <- DecimalPos.Unsigned.of_uint_alt.
  change (Pos.of_uint (N.to_uint (Z.to_N z))) with (N.of_uint (N.to_uint (Z.to_N z))).
  rewrite DecimalN.Unsigned.of_to, Z2N.id by assumption.
  f_equal. lia.
Qed.

Lemma string_of_uint_digits : forall d,
  all_bytes is_digit (NilEmpty.string_of_uint d) = true.
Proof. induction d; cbn [NilEmpty.string_of_uint all_bytes]; auto. Qed.

Lemma fmt_d_digits : forall z, all_bytes is_digit (fmt_d z) = true.
Proof. intros z. apply string_of_uint_digits. Qed.

Lemma fmt_d_nonempty : forall z, fmt_d z <> EmptyString.
Proof.
  intros z. unfold fmt_d. destruct (Z.to_N z) as [|p]; [discriminate|].
  cbn [N.to_uint]. pose proof (DecimalPos.Unsigned.to_uint_nonnil p) as Hn.
  destruct (Pos.to_uint p); [congruence|..]; discriminate.
Qed.

Lemma ParseUint_fmt_d : forall n,
  0 <= n -> ParseUint (fmt_d n) = if n <=? uint64_max then Ok n else Err (ErrRange (fmt_d n)).
Proof.
  intros n Hn. unfold ParseUint.
  pose proof (fmt_d_nonempty n) as Hne.
  destruct (fmt_d n) eqn:E; [congruence|].
  rewrite <- E, (parse_digits_fmt_d n Hn). reflexivity.
Qed.

End FormatFacts.

(* ================================================================== *)
(** * The lowest height in an error text, in general *)

Module LowestFacts.
Import Utils Probes Observe Sim UtilsFacts FormatFacts ProbeFacts.

Lemma append_assoc : forall a b c : string, (a ++ b) ++ c = a ++ b ++ c.
Proof. induction a as [|x a IH]; intros b c; cbn; [reflexivity|now rewrite IH]. Qed.

Lemma length_append : forall a b : string,
  String.length (a ++ b) = (String.length a + String.length b)%nat.
Proof. induction a as [|x a IH]; intros b; cbn; [reflexivity|now rewrite IH]. Qed.

Lemma all_bytes_append : forall p a b,
  all_bytes p (a ++ b) = all_bytes p a && all_bytes p b.
Proof.
  induction a as [|x a IH]; intros b; cbn; [reflexivity|].
  now rewrite IH, andb_assoc.
Qed.

(** A text long enough for the prefix decides the match on its own. *)
Lemma strip_prefix_append : forall p a b,
  (String.length p <= String.length a)%nat ->
  strip_prefix p (a ++ b) = option_map (fun r => r ++ b) (strip_prefix p a).
Proof.
  induction p as [|x p IH]; intros a b Hlen; cbn; [reflexivity|].
  destruct a as [|y a]; [cbn in Hlen; lia|]. cbn in Hlen |- *.
  destruct (Ascii.eqb x y); [apply IH; lia|reflexivity].
Qed.

Lemma match_here_stays_none : forall a b,
  (String.length lowestLiteral < String.length a)%nat ->
  match_here a = None -> match_here (a ++ b) = None.
Proof.
  intros a b Hlen H. unfold match_here in *.
  rewrite strip_prefix_append by lia.
  destruct (strip_prefix lowestLiteral a) as [r|] eqn:Hp; [|reflexivity].
  cbn [option_map]. apply strip_prefix_sound in Hp.
  destruct r as [|c r].
  - subst a. rewrite length_append in Hlen. cbn in Hlen. lia.
  - cbn [span_digits append] in *.
    destruct (is_digit c); [discriminate|reflexivity].
Qed.

Lemma find_cons_none : forall c s,
  FindStringSubmatch (String c s) = None ->
  match_here (String c s) = None /\ FindStringSubmatch s = None.
Proof.
  intros c s H. cbn [FindStringSubmatch] in H.
  destruct (match_here (String c s)); [discriminate|auto].
Qed.

Lemma find_of_match : forall s m,
  match_here s = Some m -> FindStringSubmatch s = Some m.
Proof.
  intros s m H. destruct s; cbn [FindStringSubmatch]; now rewrite H.
Qed.

(** Where nothing matches earlier, the scan reaches the literal. *)
Lemma find_skips_prefix : forall pre rest,
  FindStringSubmatch (pre ++ lowestLiteral) = None ->
  FindStringSubmatch (pre ++ lowestLiteral ++ rest) =
  FindStringSubmatch (lowestLiteral ++ rest).
Proof.
  induction pre as [|c pre IH]; intros rest H; [reflexivity|].
  cbn [append] in H. apply find_cons_none in H as [Hm Hf].
  change (String c pre ++ lowestLiteral ++ rest)
    with (String c (pre ++ lowestLiteral ++ rest)).
  cbn [FindStringSubmatch].
  replace (String c (pre ++ lowestLiteral ++ rest))
    with (String c (pre ++ lowestLiteral) ++ rest)
    by (cbn [append]; now rewrite append_assoc).
  rewrite match_here_stays_none; [now apply IH|..|exact Hm].
  cbn [String.length]. rewrite length_append. lia.
Qed.

(** The greedy scan takes the digits up to the first byte that is none. *)
Lemma span_digits_exact : forall ds post,
  all_bytes is_digit ds = true -> starts_with_digit post = false ->
  span_digits (ds ++ post) = ds.
Proof.
  induction ds as [|c ds IH]; intros post Hd Hp.
  - destruct post as [|x post]; [reflexivity|].
    cbn in Hp |- *. now rewrite Hp.
  - cbn in Hd |- *. apply andb_prop in Hd as [Hc Hd].
    now rewrite Hc, IH.
Qed.

Lemma match_here_exact : forall ds post,
  ds <> EmptyString -> all_bytes is_digit ds = true ->
  starts_with_digit post = false ->
  match_here (lowestLiteral ++ ds ++ post) = Some [lowestLiteral ++ ds; ds].
Proof.
  intros ds post Hne Hd Hp. unfold match_here.
  rewrite strip_prefix_complete, span_digits_exact by assumption.
  destruct ds; [congruence|reflexivity].
Qed.

Lemma digit_is_lower_ascii : forall c,
  is_digit c = true -> is_ascii c = true /\ lower_byte c = c.
Proof.
  intros c H. unfold is_digit, is_ascii, lower_byte, is_upper in *.
  apply andb_prop in H as [H1 H2].
  apply Nat.leb_le in H1, H2. split.
  - apply Nat.ltb_lt. lia.
  - replace (65 <=? nat_of_ascii c)%nat with false; [reflexivity|].
    symmetry. apply Nat.leb_gt. lia.
Qed.

(** Where nothing matches earlier and no digit follows, the scan returns
    the literal with the whole run of digits. *)
Lemma find_reads_digits : forall pre ds post,
  ~ contains_pattern (pre ++ lowestLiteral) ->
  ds <> EmptyString -> all_bytes is_digit ds = true ->
  starts_with_digit post = false ->
  FindStringSubmatch (pre ++ lowestLiteral ++ ds ++ post) =
  Some [lowestLiteral ++ ds; ds].
Proof.
  intros pre ds post Hpre Hne Hd Hpost.
  apply find_none_iff in Hpre.
  rewrite (find_skips_prefix pre _ Hpre).
  apply find_of_match. now apply match_here_exact.
Qed.

(** The value read from a text that names a lowest height. *)
Lemma parseLowestHeightFromError_value :
  forall (f : string -> string) (s pre post : string) (n : Z),
    all_bytes is_ascii s = true ->
    map_bytes lower_byte s = pre ++ lowestLiteral ++ fmt_d n ++ post ->
    ~ contains_pattern (pre ++ lowestLiteral) ->
    starts_with_digit post = false ->
    0 <= n ->
    parseLowestHeightFromError f s =
    match ParseUint (fmt_d n) with Ok v => v | Err _ => 0 end.
Proof.
  intros f s pre post n Hascii Hlow Hpre Hpost Hn.
  unfold parseLowestHeightFromError, strings_ToLower.
  rewrite Hascii, Hlow.
  now rewrite (find_reads_digits pre (fmt_d n) post Hpre (fmt_d_nonempty n)
                 (fmt_d_digits n) Hpost).
Qed.

(** X1: the height named by a pruned node is read back, whatever the case
    of the text: on an all-ASCII text that, lowered, is
    [pre ++ "lowest height is " ++ digits of n ++ post], with no earlier
    match and no digit right after, the result is [n]; when [n] does not
    fit a [uint64] the result is 0. *)
Theorem parseLowestHeightFromError_reads_height :
  forall (f : string -> string) (s pre post : string) (n : Z),
    all_bytes is_ascii s = true ->
    map_bytes lower_byte s = pre ++ lowestLiteral ++ fmt_d n ++ post ->
    ~ contains_pattern (pre ++ lowestLiteral) ->
    starts_with_digit post = false ->
    0 <= n ->
    parseLowestHeightFromError f s = if n <=? uint64_max then n else 0.
Proof.
  intros f s pre post n Hascii Hlow Hpre Hpost Hn.
  assert (Hlower : strings_ToLower f s = map_bytes lower_byte s)
    by (unfold strings_ToLower; now rewrite Hascii).
  assert (Hfind : FindStringSubmatch (strings_ToLower f s) =
                  Some [lowestLiteral ++ fmt_d n; fmt_d n]).
  { rewrite Hlower, Hlow.
    apply find_reads_digits; try assumption.
    - apply fmt_d_nonempty.
    - apply fmt_d_digits. }
  unfold parseLowestHeightFromError. rewrite Hfind.
  rewrite (ParseUint_fmt_d n Hn).
  destruct (n <=? uint64_max); reflexivity.
Qed.

Lemma parseLowestHeightFromError_reads_height_witness :
  parseLowestHeightFromError (fun s => s)
    "rpc error: code = InvalidArgument desc = Height 1 is NOT available, Lowest Height Is 28566001; retry later"
  = 28566001.
Proof.
  refine (parseLowestHeightFromError_reads_height (fun s => s) _
            "rpc error: code = invalidargument desc = height 1 is not available, "
            "; retry later" 28566001 _ _ _ _ _).
  - vm_compute. reflexivity.
  - vm_compute. reflexivity.
  - apply find_none_iff. vm_compute. reflexivity.
  - reflexivity.
  - lia.
Defined.

Section LowestFacts.
Context {Env Sink : Type} `{P : Platform Env} `{O : OutputHandler Sink}.
Local Abbreviation World := (World Env Sink).

(** X2: on a pruned node one request settles the earliest height: when the
    request for block 1 fails with a text naming the lowest height [n],
    [1 <= n <= 2^64 - 1], the probe returns [n] with a nil error, having
    made that one request and left the sink alone. *)
Theorem GetEarliestBlockHeight_pruned :
  forall (c : GRPCClient) (maxRetries : Z) (w : World) (n1 : Env) (e : error)
         (pre post : string) (n : Z),
    GetGRPCResponse c getBlockByHeightMethod 1 heightOneParams (env w)
      = (n1, Err e) ->
    all_bytes is_ascii (Error e) = true ->
    map_bytes lower_byte (Error e) = pre ++ lowestLiteral ++ fmt_d n ++ post ->
    ~ contains_pattern (pre ++ lowestLiteral) ->
    starts_with_digit post = false ->
    1 <= n <= uint64_max ->
    GetEarliestBlockHeight c maxRetries w =
    (mkWorld n1 (sink w) (trace w ++ [probeCall 1]), (n, None)).
Proof.
  intros c maxRetries w n1 e pre post n Hcall Hascii Hlow Hpre Hpost [Hn1 Hn2].
  unfold GetEarliestBlockHeight. run_m. fold (probeCall 1).
  rewrite Hcall.
  rewrite (parseLowestHeightFromError_value unicodeLower (Error e) pre post n
             Hascii Hlow Hpre Hpost ltac:(lia)).
  rewrite (ParseUint_fmt_d n ltac:(lia)).
  apply Z.leb_le in Hn2. rewrite Hn2.
  replace (0 <? n) with true by (symmetry; apply Z.ltb_lt; lia).
  reflexivity.
Qed.

End LowestFacts.

Lemma GetEarliestBlockHeight_pruned_witness :
  GetEarliestBlockHeight rootClient 3 (start (prunedNode 50) emptySink) =
  (mkWorld (prunedNode 50) emptySink [probeCall 1], (50, None)).
Proof.
  refine (GetEarliestBlockHeight_pruned (P:=simPlatform) (Sink:=SimSink)
            rootClient 3 (start (prunedNode 50) emptySink) (prunedNode 50) _
            "rpc error: code = invalidargument desc = height 1 is not available, "
            "" 50 _ _ _ _ _ _).
  - vm_compute. reflexivity.
  - vm_compute. reflexivity.
  - vm_compute. reflexivity.
  - apply find_none_iff. vm_compute. reflexivity.
  - reflexivity.
  - rewrite TailerFacts.uint64_max_value. lia.
Defined.

End LowestFacts.

(* ================================================================== *)
(** * Which heights reach the sink *)

Module WritesFacts.
Import Utils Probes Extractor Driver Spec Observe Sim.
Import ProbeFacts ExtractorFacts DriverFacts.

Lemma writtenHeights_app : forall a b,
  writtenHeights (a ++ b) = (writtenHeights a ++ writtenHeights b)%list.
Proof.
  induction a as [|e a IH]; intros b; [reflexivity|].
  destruct e; cbn [app writtenHeights]; rewrite ?IH; reflexivity.
Qed.

Lemma sinkWrites_app : forall a b,
  sinkWrites (a ++ b) = (sinkWrites a ++ sinkWrites b)%list.
Proof. intros a b. apply filter_app. Qed.

Section WritesFacts.
Context {Env Sink : Type} `{P : Platform Env} `{O : OutputHandler Sink}.
Local Abbreviation World := (World Env Sink).

(** One block: its events, the heights written among them and the writes. *)
Lemma processSingleBlockWithRetry_written :
  forall c h maxRetries (w : World),
    exists evs,
      trace (fst (processSingleBlockWithRetry c h maxRetries w)) =
        (trace w ++ evs)%list /\
      ((snd (processSingleBlockWithRetry c h maxRetries w) <> None /\
        writtenHeights evs = [] /\ sinkWrites evs = []) \/
       (exists bytes txs,
           writtenHeights evs = [h] /\
           sinkWrites evs = [EvWriteBlockWithTransactions (mkBlock h bytes) txs])).
Proof.
  intros c h maxRetries w.
  pose proof (processSingleBlockWithRetry_cases c h maxRetries w) as S.
  cbv zeta in S. unfold blockCall in S.
  destruct (GetGRPCResponse c blockMethodFullName maxRetries (heightParams h) (env w))
    as [n1 [bytes|err]].
  2:{ rewrite S. eexists. split; [reflexivity|]. left.
      repeat split; discriminate. }
  destruct (json_Unmarshal bytes) as [data|err].
  2:{ rewrite S. eexists. split; [reflexivity|]. left.
      repeat split; discriminate. }
  destruct (extractTransactions c data maxRetries n1) as [n2 [txs|err]].
  2:{ rewrite S. eexists. split; [reflexivity|]. left.
      repeat split; discriminate. }
  destruct (WriteBlockWithTransactions _ _ _ _) as [s' e].
  rewrite S. eexists. split; [reflexivity|]. right.
  exists bytes, txs. split; reflexivity.
Qed.

(** One height, with or without block results. *)
Lemma processOne_written :
  forall cfg c h (w : World),
    exists evs,
      trace (fst (processOne cfg c h w)) = (trace w ++ evs)%list /\
      (snd (processOne cfg c h w) = None -> writtenHeights evs = [h]) /\
      (writtenHeights evs = [] \/ writtenHeights evs = [h]).
Proof.
  intros cfg c h w.
  destruct (processSingleBlockWithRetry_written c h (MaxRetries cfg) w)
    as (evs1 & T1 & D1).
  unfold processOne. destruct (EnableBlockResults cfg).
  - pose proof (processSingleBlockWithResultsAndRetry_cases c h (MaxRetries cfg) w) as S.
    cbv zeta in S. unfold resultsCall in S.
    destruct (processSingleBlockWithRetry c h (MaxRetries cfg) w) as [w1 [err|]];
      cbn [fst snd] in T1, D1.
    + rewrite S. exists evs1. cbn [fst snd]. split; [exact T1|].
      split; [discriminate|].
      destruct D1 as [(_ & W & _)|(b & t & W & _)]; auto.
    + destruct D1 as [(Hn & _)|(b & t & W & _)]; [congruence|].
      destruct (GetGRPCResponse _ _ _ _ _) as [n2 [bytes|err]].
      * destruct (WriteBlockResults _ _ _) as [s' e2]. rewrite S.
        cbn [fst snd trace]. rewrite T1, <- app_assoc.
        eexists. split; [reflexivity|].
        rewrite writtenHeights_app, W. cbn. auto.
      * rewrite S. cbn [fst snd trace]. rewrite T1, <- app_assoc.
        eexists. split; [reflexivity|].
        rewrite writtenHeights_app, W. cbn. auto.
  - exists evs1. split; [exact T1|].
    destruct D1 as [(Hn & W & _)|(b & t & W & _)]; split; auto; congruence.
Qed.

(** The loop of the gap repairer writes a prefix of the missing heights. *)
Lemma processMissingLoop_written :
  forall cfg c ids (w : World),
    exists evs,
      trace (fst (processMissingLoop cfg c ids w)) = (trace w ++ evs)%list /\
      (exists rest, ids = (writtenHeights evs ++ rest)%list) /\
      (snd (processMissingLoop cfg c ids w) = None -> writtenHeights evs = ids).
Proof.
  intros cfg c ids. induction ids as [|h ids IH]; intros w.
  - exists []. cbn. rewrite app_nil_r. repeat split. now exists [].
  - cbn [processMissingLoop]. unfold bind. cbv beta.
    destruct (processOne_written cfg c h w) as (e1 & T1 & N1 & D1).
    destruct (processOne cfg c h w) as [w1 [err|]]; cbn [fst snd] in T1, N1.
    + exists e1. unfold ret. cbn [fst snd]. split; [exact T1|].
      split; [|intros X; discriminate X].
      destruct D1 as [->| ->]; [now exists (h :: ids)|now exists ids].
    + specialize (N1 eq_refl).
      destruct (IH w1) as (e2 & T2 & (rest & Hrest) & N2).
      exists (e1 ++ e2)%list. rewrite T2, T1, <- app_assoc.
      split; [reflexivity|].
      rewrite writtenHeights_app, N1. cbn [app]. split.
      * exists rest. now rewrite Hrest at 1.
      * intros Hnone. now rewrite (N2 Hnone).
Qed.

(** X3: the gap repairer hands to the sink a prefix of the reported missing
    heights, in the reported order and each once; when it returns nil, it
    has handed over all of them. *)
Theorem processMissingBlocks_writes :
  forall (c : GRPCClient) (cfg : ExtractConfig) (w : World) (s1 : Sink)
         (ids : list Z),
    GetMissingBlockIds (ctx_Err (Ctx c) (env w)) (sink w) = (s1, Ok ids) ->
    let (w', res) := processMissingBlocks c cfg w in
    (exists rest, ids = (writtenHeights (newEvents w w') ++ rest)%list) /\
    (res = None -> writtenHeights (newEvents w w') = ids).
Proof.
  intros c cfg w s1 ids Hq.
  unfold processMissingBlocks. run_m. cbv beta. rewrite Hq.
  destruct ids as [|h ids].
  - cbn. unfold newEvents. cbn [trace]. rewrite skipn_app_length.
    split; [now exists []|reflexivity].
  - cbn [List.length Nat.ltb Nat.leb env sink trace].
    match goal with
    | |- context [processMissingLoop cfg c (h :: ids) ?w0] =>
        destruct (processMissingLoop_written cfg c (h :: ids) w0)
          as (evs & T & Pre & Full);
        destruct (processMissingLoop cfg c (h :: ids) w0) as [w' res]
    end.
    cbn [fst snd trace] in T, Full.
    unfold newEvents. rewrite T, <- !app_assoc, skipn_app_length.
    cbn [app writtenHeights]. auto.
Qed.

(** X4: block results never reach the sink ahead of their block: the sink
    writes of one height are none (and the height fails), or the block of
    that height alone, or that block followed by the results of the same
    height, the latter only after the block was written with success. *)
Theorem results_written_after_block :
  forall (c : GRPCClient) (h maxRetries : Z) (w : World),
    let (w', res) := processSingleBlockWithResultsAndRetry c h maxRetries w in
    match sinkWrites (newEvents w w') with
    | [] => res <> None
    | [EvWriteBlockWithTransactions b _] => ID b = h
    | [EvWriteBlockWithTransactions b _; EvWriteBlockResults br] =>
        ID b = h /\ Height br = h /\
        snd (processSingleBlockWithRetry c h maxRetries w) = None
    | _ => False
    end.
Proof.
  intros c h maxRetries w.
  destruct (processSingleBlockWithRetry_written c h maxRetries w)
    as (evs1 & T1 & D1).
  pose proof (processSingleBlockWithResultsAndRetry_cases c h maxRetries w) as S.
  cbv zeta in S. unfold resultsCall in S.
  destruct (processSingleBlockWithRetry c h maxRetries w) as [w1 [err|]];
    cbn [fst snd] in T1, D1.
  - rewrite S. unfold newEvents. rewrite T1, skipn_app_length.
    destruct D1 as [(_ & _ & ->)|(b & t & _ & ->)]; [discriminate|reflexivity].
  - destruct D1 as [(Hn & _)|(b & t & _ & W)]; [congruence|].
    destruct (GetGRPCResponse _ _ _ _ _) as [n2 [bytes|err]].
    + destruct (WriteBlockResults _ _ _) as [s' e2]. rewrite S.
      unfold newEvents. cbn [trace]. rewrite T1, <- app_assoc, skipn_app_length.
      rewrite sinkWrites_app, W. cbn. auto.
    + rewrite S. unfold newEvents. cbn [trace].
      rewrite T1, <- app_assoc, skipn_app_length.
      rewrite sinkWrites_app, W. cbn. reflexivity.
Qed.

End WritesFacts.

Lemma processMissingBlocks_writes_witness :
  writtenHeights
    (newEvents (start (healthyNode 9) (sinkMissing [3; 7]))
       (fst (processMissingBlocks rootClient (mkConfig 3 5 2 true)
               (start (healthyNode 9) (sinkMissing [3; 7])))))
  = [3; 7].
Proof.
  pose proof (processMissingBlocks_writes (P:=simPlatform) (O:=simSink)
                rootClient (mkConfig 3 5 2 true)
                (start (healthyNode 9) (sinkMissing [3; 7]))
                (sinkMissing [3; 7]) [3; 7] eq_refl) as S.
  destruct (processMissingBlocks rootClient (mkConfig 3 5 2 true)
              (start (healthyNode 9) (sinkMissing [3; 7]))) as [w' res] eqn:E.
  destruct S as [_ Full]. cbn [fst]. apply Full.
  vm_compute in E. inversion E. reflexivity.
Defined.

End WritesFacts.

(* ================================================================== *)
(** * Which heights the parallel driver runs *)

Module ScheduleFacts.
Import Utils Probes Extractor Driver Spec Observe Sim.
Import ProbeFacts ExtractorFacts DriverFacts WritesFacts TailerFacts.

Lemma heightRange_nil : forall start stop,
  stop < start -> heightRange start stop = [].
Proof.
  intros start stop H. unfold heightRange.
  replace (Z.to_nat (stop - start + 1)) with O by lia. reflexivity.
Qed.

Lemma heightRange_cons : forall start stop,
  start <= stop ->
  heightRange start stop = start :: heightRange (start + 1) stop.
Proof.
  intros start stop H. unfold heightRange.
  replace (Z.to_nat (stop - start + 1))
    with (S (Z.to_nat (stop - (start + 1) + 1))) by lia.
  reflexivity.
Qed.

Lemma upFrom_app : forall n m start,
  (upFrom start n ++ upFrom (start + Z.of_nat n) m)%list = upFrom start (n + m).
Proof.
  induction n as [|n IH]; intros m start.
  - cbn. now rewrite Z.add_0_r.
  - cbn [upFrom Nat.add app]. rewrite <- IH. do 3 f_equal. lia.
Qed.

(** Two ranges that meet make one. *)
Lemma heightRange_app : forall a b c,
  a <= b + 1 -> b <= c ->
  (heightRange a b ++ heightRange (b + 1) c)%list = heightRange a c.
Proof.
  intros a b c Hab Hbc. unfold heightRange.
  replace (b + 1) with (a + Z.of_nat (Z.to_nat (b - a + 1))) at 1 by lia.
  rewrite upFrom_app. f_equal. lia.
Qed.

Lemma remove_first_perm : forall h l,
  existsb (Z.eqb h) l = true -> Permutation (h :: remove_first h l) l.
Proof.
  intros h l. induction l as [|x l IH]; intros H; [discriminate|].
  cbn [existsb remove_first] in *. rewrite Z.eqb_sym in H.
  destruct (x =? h) eqn:E.
  - apply Z.eqb_eq in E. subst. apply Permutation_refl.
  - cbn [orb] in H. eapply perm_trans; [apply perm_swap|].
    apply perm_skip. now apply IH.
Qed.

Lemma add64_range : forall a b, is_uint64 (add64 a b).
Proof.
  intros a b. unfold add64, wrap64, is_uint64, uint64_max.
  pose proof (Z.mod_pos_bound (a + b) uint64_modulus) as B.
  unfold uint64_modulus in *. lia.
Qed.

Lemma add64_next : forall height,
  is_uint64 height -> height < uint64_max -> add64 height 1 = height + 1.
Proof.
  intros height [H0 _] H. unfold add64, wrap64.
  rewrite Z.mod_small; [reflexivity|].
  rewrite uint64_max_value in H. unfold uint64_modulus. lia.
Qed.

Section ScheduleFacts.
Context {Env Sink : Type} `{P : Platform Env} `{O : OutputHandler Sink}.
Local Abbreviation World := (World Env Sink).

(** The events of one goroutine. *)
Lemma blockTask_written : forall cfg parent bar g h (w : World),
  exists evs,
    trace (fst (blockTask cfg parent bar g h w)) = (trace w ++ evs)%list /\
    taskResults evs = [] /\
    (snd (blockTask cfg parent bar g h w) = None -> writtenHeights evs = [h]).
Proof.
  intros cfg parent bar g h w.
  destruct (Quiet_blockTask cfg parent bar g h w) as (evs & T & Q).
  exists evs. split; [exact T|]. split; [exact Q|].
  intros Hnone. revert T Hnone. unfold blockTask. run_m. cbv beta.
  destruct (processOne_written cfg (mkClient (groupCtx parent g)) h w)
    as (e1 & T1 & N1 & _).
  destruct (processOne cfg (mkClient (groupCtx parent g)) h w) as [w1 [err|]];
    cbn [fst snd] in T1, N1.
  - destruct (negb (Is_Canceled err)); cbn [fst snd]; intros _ X; discriminate X.
  - specialize (N1 eq_refl). intros T _.
    assert (Hw : exists e2, evs = (e1 ++ e2)%list /\ writtenHeights e2 = []).
    { revert T. destruct bar.
      - destruct (bar_Add (env w1)) as [n [e|]]; cbn [fst trace];
          rewrite T1, <- !app_assoc; intros T;
          apply app_inv_head in T;
          (eexists; split; [symmetry; exact T|reflexivity]).
      - cbn [fst]. rewrite T1. intros T.
        exists []. rewrite app_nil_r. split; [|reflexivity].
        now apply app_inv_head in T. }
    destruct Hw as (e2 & -> & W2).
    now rewrite writtenHeights_app, N1, W2.
Qed.

(** A range that ends at the top of [uint64] is never finished: the loop
    variable wraps and the loop goes on. *)
Lemma runBlocks_never_waits_at_top :
  forall cfg parent stop bar sched height g (w w' : World) r,
    uint64_max <= stop -> is_uint64 height ->
    runBlocks cfg parent stop bar sched height g w <> Some (w', (WaitReturn, r)).
Proof.
  intros cfg parent stop bar sched.
  induction sched as [|ch sched IH]; intros height g w w' r Hs Hh;
    cbn [runBlocks].
  - replace (stop <? height) with false
      by (symmetry; apply Z.ltb_ge; destruct Hh; lia).
    discriminate.
  - destruct ch as [|h].
    + destruct (height <=? stop); [|discriminate].
      destruct (ctx_Err _ _); [cbn; discriminate|].
      destruct (_ <? _); [|discriminate].
      apply IH; [assumption|apply add64_range].
    + destruct (existsb _ _); [|discriminate].
      destruct (blockTask _ _ _ _ _ _) as [w1 r0]. unfold emit.
      now apply IH.
Qed.

(** A run that ends in [eg.Wait()] has run the goroutines that were
    running and one for each height still to come, each once. *)
Lemma runBlocks_tasks :
  forall cfg parent stop bar sched height g (w w' : World) r,
    is_uint64 height ->
    runBlocks cfg parent stop bar sched height g w = Some (w', (WaitReturn, r)) ->
    exists evs,
      trace w' = (trace w ++ evs)%list /\
      Permutation (taskHeights (taskResults evs))
                  (running g ++ heightRange height stop).
Proof.
  intros cfg parent stop bar sched.
  induction sched as [|ch sched IH]; intros height g w w' r Hh H.
  - cbn [runBlocks] in H.
    destruct (stop <? height) eqn:E1; [|discriminate].
    destruct (Nat.eqb (List.length (running g)) 0) eqn:E2; [|discriminate].
    inversion H; subst. exists []. rewrite app_nil_r. split; [reflexivity|].
    apply Z.ltb_lt in E1. rewrite (heightRange_nil _ _ E1).
    apply Nat.eqb_eq in E2. destruct (running g); [constructor|discriminate].
  - destruct ch as [|h]; cbn [runBlocks] in H.
    + destruct (height <=? stop) eqn:E1; [|discriminate].
      destruct (ctx_Err _ _); [cbn in H; discriminate|].
      destruct (_ <? MaxConcurrency cfg); [|discriminate].
      apply Z.leb_le in E1.
      destruct (Z_lt_le_dec height uint64_max) as [Hlt|Hge].
      * rewrite (add64_next height Hh Hlt) in H.
        apply IH in H; [|destruct Hh; split; lia].
        destruct H as (evs & T & Pm). exists evs. split; [exact T|].
        cbn [running] in Pm. rewrite <- app_assoc in Pm. cbn [app] in Pm.
        now rewrite (heightRange_cons _ _ E1).
      * exfalso. revert H. apply runBlocks_never_waits_at_top;
          [lia|apply add64_range].
    + destruct (existsb (Z.eqb h) (running g)) eqn:E; [|discriminate].
      destruct (blockTask_written cfg parent bar g h w) as (e1 & T1 & Q1 & _).
      destruct (blockTask cfg parent bar g h w) as [w1 r0].
      cbn [fst snd] in T1. unfold emit in H. cbn [env sink trace] in H.
      apply IH in H; [|assumption]. destruct H as (e2 & T2 & Pm).
      cbn [trace recordResult running] in T2, Pm.
      exists (e1 ++ EvTaskDone h (isSome (gErr g)) r0 :: e2)%list. split.
      * rewrite T2, T1, <- !app_assoc. reflexivity.
      * rewrite taskResults_app, Q1. cbn [app taskResults taskHeights map fst].
        fold (taskHeights (taskResults e2)).
        eapply perm_trans; [apply perm_skip; exact Pm|].
        change (h :: remove_first h (running g) ++ heightRange height stop)
          with ((h :: remove_first h (running g)) ++ heightRange height stop)%list.
        apply Permutation_app_tail. now apply remove_first_perm.
Qed.

(** In a run that ends in [eg.Wait()] with nil, every goroutine wrote its
    block. *)
Lemma runBlocks_written :
  forall cfg parent stop bar sched height g (w w' : World),
    runBlocks cfg parent stop bar sched height g w = Some (w', (WaitReturn, None)) ->
    exists evs,
      trace w' = (trace w ++ evs)%list /\
      writtenHeights evs = taskHeights (taskResults evs).
Proof.
  intros cfg parent stop bar sched.
  induction sched as [|ch sched IH]; intros height g w w' H.
  - cbn [runBlocks] in H. destruct (_ && _); [|discriminate].
    inversion H; subst. exists []. now rewrite app_nil_r.
  - destruct ch as [|h]; cbn [runBlocks] in H.
    + destruct (height <=? stop); [|discriminate].
      destruct (ctx_Err _ _); [cbn in H; discriminate|].
      destruct (_ <? MaxConcurrency cfg); [|discriminate].
      now apply IH in H.
    + destruct (existsb (Z.eqb h) (running g)); [|discriminate].
      destruct (blockTask_written cfg parent bar g h w) as (e1 & T1 & Q1 & W1).
      destruct (blockTask cfg parent bar g h w) as [w1 r0].
      cbn [fst snd] in T1, W1. unfold emit in H. cbn [env sink trace] in H.
      assert (Hr0 : r0 = None).
      { destruct (runBlocks_wait_inv _ _ _ _ _ _ _ _ _ _ H) as (evs & _ & Hr & _).
        cbn [recordResult gErr] in Hr.
        destruct (gErr g); [discriminate|]. destruct r0; [discriminate|reflexivity]. }
      apply IH in H. destruct H as (e2 & T2 & W2). cbn [trace] in T2.
      exists (e1 ++ EvTaskDone h (isSome (gErr g)) r0 :: e2)%list. split.
      * rewrite T2, T1, <- !app_assoc. reflexivity.
      * rewrite writtenHeights_app, taskResults_app, Q1, (W1 Hr0).
        cbn [app writtenHeights taskResults taskHeights map fst].
        now rewrite W2.
Qed.

(** The [return] inside the loop. *)
Lemma runBlocks_loop_return :
  forall cfg parent stop bar sched height g (w w' : World) r,
    runBlocks cfg parent stop bar sched height g w = Some (w', (LoopReturn, r)) ->
    r = Some context_Canceled /\
    exists evs,
      trace w' =
        (trace w ++ evs ++ [EvSlog Info "Processing cancelled by user"])%list /\
      writtenHeights [EvSlog Info "Processing cancelled by user"] = [] /\
      (ctx_Err parent (env w') = true \/
       isSome (match gErr g with
               | Some e => Some e
               | None => firstError (taskResults evs)
               end) = true).
Proof.
  intros cfg parent stop bar sched.
  induction sched as [|ch sched IH]; intros height g w w' r H;
    cbn [runBlocks] in H.
  - destruct (_ && _); discriminate.
  - destruct ch as [|h].
    + destruct (height <=? stop); [|discriminate].
      destruct (ctx_Err (groupCtx parent g) (env w)) eqn:Hctx.
      * cbn in H. inversion H; subst. split; [reflexivity|].
        exists []. cbn [app env]. split; [reflexivity|]. split; [reflexivity|].
        cbn [groupCtx ctx_Err] in Hctx. apply orb_prop in Hctx as [Hg|Hp].
        -- right. destruct (gErr g); [reflexivity|discriminate].
        -- now left.
      * destruct (_ <? MaxConcurrency cfg); [|discriminate].
        apply IH in H. exact H.
    + destruct (existsb (Z.eqb h) (running g)); [|discriminate].
      destruct (blockTask_written cfg parent bar g h w) as (e1 & T1 & Q1 & _).
      destruct (blockTask cfg parent bar g h w) as [w1 r0].
      cbn [fst snd] in T1. unfold emit in H. cbn [env sink trace] in H.
      apply IH in H. destruct H as (-> & e2 & T2 & Wl & Why).
      split; [reflexivity|]. cbn [trace recordResult gErr] in T2, Why.
      exists (e1 ++ EvTaskDone h (isSome (gErr g)) r0 :: e2)%list. split.
      * rewrite T2, T1, <- !app_assoc. reflexivity.
      * split; [reflexivity|].
        destruct Why as [Hp|Hg]; [now left|right].
        rewrite taskResults_app, Q1. cbn [app taskResults firstError].
        destruct (gErr g); [reflexivity|]. destruct r0; [reflexivity|exact Hg].
Qed.

(** A nil return of [processBlocks] comes from [eg.Wait()], after every
    height of the range was written once. *)
Lemma processBlocks_written_range :
  forall sched c start stop cfg bar (w w' : World) ex,
    is_uint64 start ->
    processBlocks sched c start stop cfg bar w = Some (w', (ex, None)) ->
    exists evs,
      trace w' = (trace w ++ evs)%list /\
      Permutation (writtenHeights evs) (heightRange start stop).
Proof.
  intros sched c start stop cfg bar w w' ex Hs H. unfold processBlocks in H.
  destruct ex.
  - apply runBlocks_loop_return in H. destruct H as [H _]. discriminate H.
  - destruct (runBlocks_written _ _ _ _ _ _ _ _ _ H) as (evs & T & W).
    destruct (runBlocks_tasks _ _ _ _ _ _ _ _ _ _ Hs H) as (evs' & T' & Pm).
    rewrite T in T'. apply app_inv_head in T'. subst evs'.
    exists evs. split; [exact T|]. now rewrite W.
Qed.


(** A nil return of a drive, with the events it added. *)
Lemma extractBlocksAndTransactions_written :
  forall sched c start stop cfg (w w' : World),
    is_uint64 start ->
    extractBlocksAndTransactions sched c start stop cfg w = Some (w', None) ->
    exists evs,
      trace w' = (trace w ++ evs)%list /\
      Permutation (writtenHeights evs) (heightRange start stop).
Proof.
  intros sched c start stop cfg w w' Hs H.
  unfold extractBlocksAndTransactions in H. run_m.
  destruct (negb (start =? stop)).
  - destruct (bar_RenderBlank (env w)) as [n [err|]]; [discriminate|].
    destruct (processBlocks sched c start stop cfg true _)
      as [[w3 [ex [err|]]]|] eqn:E; try discriminate.
    destruct (processBlocks_written_range _ _ _ _ _ _ _ _ _ Hs E)
      as (evs & T & Pm). cbn [trace] in T.
    destruct (bar_Finish (env w3)) as [n4 [err|]]; [discriminate|].
    inversion H; subst; clear H. cbn [trace].
    exists (EvSlog Info "Extracting blocks and transactions"
            :: EvBar "RenderBlank" :: evs ++ [EvBar "Finish"])%list.
    split.
    + rewrite T, <- !app_assoc. reflexivity.
    + cbn [writtenHeights]. rewrite writtenHeights_app. cbn.
      now rewrite app_nil_r.
  - destruct (processBlocks sched c start stop cfg false _)
      as [[w3 [ex [err|]]]|] eqn:E; try discriminate.
    destruct (processBlocks_written_range _ _ _ _ _ _ _ _ _ Hs E)
      as (evs & T & Pm). cbn [trace] in T.
    inversion H; subst; clear H.
    exists (EvSlog Info "Extracting blocks and transactions" :: evs).
    split; [rewrite T, <- !app_assoc; reflexivity|exact Pm].
Qed.

(** X6: when [extractBlocksAndTransactions] returns nil, every height of
    [[start, stop]] has been handed to the sink in a
    [WriteBlockWithTransactions] call exactly once, and no other height. *)
Theorem extractBlocksAndTransactions_writes_range :
  forall sched c start stop cfg (w w' : World),
    is_uint64 start ->
    extractBlocksAndTransactions sched c start stop cfg w = Some (w', None) ->
    Permutation (writtenHeights (newEvents w w')) (heightRange start stop).
Proof.
  intros sched c start stop cfg w w' Hs H.
  destruct (extractBlocksAndTransactions_written _ _ _ _ _ _ _ Hs H)
    as (evs & T & Pm).
  unfold newEvents. now rewrite T, skipn_app_length.
Qed.


(** X8: on an empty range ([stop < start]) [processBlocks] starts no
    goroutine and returns nil at once, leaving the world as it was; there
    is no other run. *)
Theorem processBlocks_empty_range :
  forall c start stop cfg bar (w : World),
    stop < start ->
    processBlocks [] c start stop cfg bar w = Some (w, (WaitReturn, None)) /\
    (forall sched, sched <> [] ->
                   processBlocks sched c start stop cfg bar w = None).
Proof.
  intros c start stop cfg bar w H. unfold processBlocks. split.
  - cbn. replace (stop <? start) with true by (symmetry; apply Z.ltb_lt; lia).
    reflexivity.
  - intros [|[|h] rest] Hne; [congruence|..]; cbn.
    + replace (start <=? stop) with false by (symmetry; apply Z.leb_gt; lia).
      reflexivity.
    + reflexivity.
Qed.

(** X9: with [cfg.MaxConcurrency = 0] the channel [sem] has no buffer and
    the first send blocks for ever: on a range that is not empty and with
    the context not yet done, [processBlocks] never returns. *)
Theorem processBlocks_zero_concurrency :
  forall sched c start stop cfg bar (w : World),
    MaxConcurrency cfg = 0 ->
    start <= stop ->
    ctx_Err (Ctx c) (env w) = false ->
    processBlocks sched c start stop cfg bar w = None.
Proof.
  intros sched c start stop cfg bar w Hc Hr Hctx. unfold processBlocks.
  destruct sched as [|[|h] rest]; cbn.
  - replace (stop <? start) with false by (symmetry; apply Z.ltb_ge; lia).
    reflexivity.
  - replace (start <=? stop) with true by (symmetry; apply Z.leb_le; lia).
    rewrite Hctx, Hc. reflexivity.
  - reflexivity.
Qed.

End ScheduleFacts.


Lemma extractBlocksAndTransactions_writes_range_witness :
  exists w',
    extractBlocksAndTransactions [Spawn; Spawn; Finish 2; Finish 1] rootClient
      1 2 (mkConfig 3 2 2 true) (start (healthyNode 10) emptySink)
    = Some (w', None) /\
    Permutation (writtenHeights (newEvents (start (healthyNode 10) emptySink) w'))
                (heightRange 1 2).
Proof.
  eexists. split; [vm_compute; reflexivity|].
  refine (extractBlocksAndTransactions_writes_range (P:=simPlatform) (O:=simSink)
            [Spawn; Spawn; Finish 2; Finish 1] rootClient 1 2
            (mkConfig 3 2 2 true) (start (healthyNode 10) emptySink) _ _ _).
  - unfold is_uint64. rewrite uint64_max_value. lia.
  - vm_compute. reflexivity.
Defined.


Lemma processBlocks_empty_range_witness :
  processBlocks [] rootClient 5 4 (mkConfig 3 2 2 false) false
                (start (healthyNode 10) emptySink)
  = Some (start (healthyNode 10) emptySink, (WaitReturn, None)).
Proof.
  refine (proj1 (processBlocks_empty_range (P:=simPlatform) (O:=simSink)
                   rootClient 5 4 (mkConfig 3 2 2 false) false
                   (start (healthyNode 10) emptySink) _)).
  lia.
Defined.

Lemma processBlocks_zero_concurrency_witness :
  processBlocks [Spawn; Finish 1] rootClient 1 1 (mkConfig 3 0 2 false) false
                (start (healthyNode 10) emptySink) = None.
Proof.
  refine (processBlocks_zero_concurrency (P:=simPlatform) (O:=simSink)
            [Spawn; Finish 1] rootClient 1 1 (mkConfig 3 0 2 false) false
            (start (healthyNode 10) emptySink) _ _ _).
  - reflexivity.
  - lia.
  - reflexivity.
Defined.

End ScheduleFacts.

(* ================================================================== *)
(** * The live tailer, over its whole run *)

Module LoopFacts.
Import Utils Probes Extractor Driver Spec Observe Sim.
Import ProbeFacts ExtractorFacts DriverFacts WritesFacts TailerFacts ScheduleFacts.

Section LoopFacts.
Context {Env Sink : Type} `{P : Platform Env} `{O : OutputHandler Sink}.
Local Abbreviation World := (World Env Sink).

Lemma liveIteration_outcome :
  forall sched c cfg currentHeight (w w' : World) st,
    is_uint64 currentHeight ->
    liveIteration sched c cfg currentHeight w = Some (w', st) ->
    iterationOutcome c currentHeight w w' st.
Proof.
  intros sched c cfg cur w w' st Hcur H. unfold liveIteration in H.
  destruct (ctx_Err (Ctx c) (env w)) eqn:Hdone.
  { inversion H; subst. exact Hdone. }
  pose proof (GetLatestBlockHeightWithRetry_spec c cfg w) as L.
  destruct (GetLatestBlockHeightWithRetry c (MaxRetries cfg) w)
    as [w1 [latest|err]]; destruct L as (_ & T1 & Hl).
  2:{ inversion H; subst. cbn. eauto. }
  destruct (cur <? latest) eqn:Hlt.
  - apply Z.ltb_lt in Hlt.
    rewrite (add64_below cur latest Hcur Hl Hlt) in H.
    destruct (extractBlocksAndTransactions sched c (cur + 1) latest cfg w1)
      as [[w2 [err|]]|] eqn:E; try discriminate.
    + inversion H; subst. cbn. eauto.
    + inversion H; subst; clear H.
      assert (Hnext : is_uint64 (cur + 1))
        by (destruct Hcur, Hl; split; lia).
      destruct (extractBlocksAndTransactions_written _ _ _ _ _ _ _ Hnext E)
        as (evs & T & Pm).
      cbn [iterationOutcome]. split; [lia|]. split; [exact Hl|].
      exists (pollCall cfg :: evs ++ [EvSleep (sleepDuration cfg)])%list.
      rewrite ?pollSleep_world. cbn [trace]. split.
      * rewrite T, T1, <- !app_assoc. reflexivity.
      * unfold pollCall. cbn [writtenHeights].
        rewrite writtenHeights_app. cbn. now rewrite app_nil_r.
  - inversion H; subst; clear H.
    cbn [iterationOutcome]. split; [lia|]. split; [exact Hcur|].
    exists [pollCall cfg; EvSleep (sleepDuration cfg)].
    rewrite ?pollSleep_world. cbn [trace]. split.
    + rewrite T1, <- !app_assoc. reflexivity.
    + rewrite heightRange_nil by lia. reflexivity.
Qed.

Lemma liveLoop_outcome :
  forall scheds c cfg currentHeight (w w' : World) st,
    is_uint64 currentHeight ->
    liveLoop scheds c cfg currentHeight w = Some (w', st) ->
    iterationOutcome c currentHeight w w' st.
Proof.
  intros scheds c cfg. induction scheds as [|sched scheds IH];
    intros cur w w' st Hcur H; cbn [liveLoop] in H.
  - inversion H; subst. cbn [iterationOutcome].
    split; [lia|]. split; [exact Hcur|].
    exists []. rewrite app_nil_r, heightRange_nil by lia.
    split; [reflexivity|constructor].
  - destruct (liveIteration sched c cfg cur w) as [[w1 [h1|r1]]|] eqn:E;
      try discriminate.
    + pose proof (liveIteration_outcome _ _ _ _ _ _ _ Hcur E) as O1.
      cbn [iterationOutcome] in O1.
      destruct O1 as (Hle1 & Hu1 & evs1 & T1 & Pm1).
      pose proof (IH _ _ _ _ Hu1 H) as O2.
      destruct st as [h2|[e|]]; cbn [iterationOutcome] in O2 |- *;
        try exact O2.
      destruct O2 as (Hle2 & Hu2 & evs2 & T2 & Pm2).
      split; [lia|]. split; [exact Hu2|].
      exists (evs1 ++ evs2)%list. split.
      * rewrite T2, T1, <- app_assoc. reflexivity.
      * rewrite writtenHeights_app.
        rewrite <- (heightRange_app (cur + 1) h1 h2) by lia.
        now apply Permutation_app.
    + inversion H; subst.
      exact (liveIteration_outcome _ _ _ _ _ _ _ Hcur E).
Qed.

(** X10: while the tailer started at [start >= 1] is still running, its
    [currentHeight] [h] has not gone below [start - 1] and every height of
    [[start, h]] has been handed to the sink exactly once, and no other. *)
Theorem tailer_has_written_what_it_passed :
  forall scheds c start cfg (w w' : World) h,
    1 <= start <= uint64_max ->
    extractLiveBlocksAndTransactions scheds c start cfg w
      = Some (w', Continue h) ->
    start - 1 <= h /\
    Permutation (writtenHeights (newEvents w w')) (heightRange start h).
Proof.
  intros scheds c start cfg w w' h Hs H.
  unfold extractLiveBlocksAndTransactions in H.
  apply liveLoop_outcome in H; [|apply sub64_range].
  rewrite (sub64_pos start Hs) in H. cbn [iterationOutcome] in H.
  destruct H as (Hle & _ & evs & T & Pm). split; [exact Hle|].
  unfold newEvents. rewrite T, skipn_app_length.
  now replace (start - 1 + 1) with start in Pm by lia.
Qed.

(** X11: the tailer returns nil only with its context done, and any error
    it returns is the probe's or the drive's, wrapped; it has no other way
    out of its loop. *)
Theorem tailer_return_kinds :
  forall scheds c start cfg (w w' : World) r,
    extractLiveBlocksAndTransactions scheds c start cfg w
      = Some (w', Return r) ->
    match r with
    | None => ctx_Err (Ctx c) (env w') = true
    | Some e =>
        exists e',
          e = Wrap "failed to get latest block height" e' \/
          e = Wrap "failed to process blocks and transactions" e'
    end.
Proof.
  intros scheds c start cfg w w' r H.
  unfold extractLiveBlocksAndTransactions in H.
  apply liveLoop_outcome in H; [|apply sub64_range].
  exact H.
Qed.

End LoopFacts.

Lemma tailer_has_written_what_it_passed_witness :
  exists w',
    extractLiveBlocksAndTransactions [[Spawn; Spawn; Finish 10; Finish 9]; []]
      rootClient 9 tenSeconds (start (healthyNode 10) emptySink)
    = Some (w', Continue 10) /\
    Permutation (writtenHeights (newEvents (start (healthyNode 10) emptySink) w'))
                (heightRange 9 10).
Proof.
  eexists. split; [vm_compute; reflexivity|].
  refine (proj2 (tailer_has_written_what_it_passed (P:=simPlatform) (O:=simSink)
                   [[Spawn; Spawn; Finish 10; Finish 9]; []] rootClient 9
                   tenSeconds (start (healthyNode 10) emptySink) _ 10 _ _)).
  - rewrite uint64_max_value. lia.
  - vm_compute. reflexivity.
Defined.

Lemma tailer_return_kinds_witness :
  exists w',
    extractLiveBlocksAndTransactions [[]; []] rootClient 11 tenSeconds idleTail
    = Some (w', Return None) /\
    ctx_Err RootCtx (env w') = true.
Proof.
  eexists. split; [vm_compute; reflexivity|].
  refine (tailer_return_kinds (P:=simPlatform) (O:=simSink) [[]; []] rootClient
            11 tenSeconds idleTail _ None _).
  vm_compute. reflexivity.
Defined.

End LoopFacts.

(* ================================================================== *)
(** * What the extractor never does *)

Module NeverFacts.
Import Utils Probes Extractor Driver Spec Observe Sim.
Import UtilsFacts FormatFacts ProbeFacts ExtractorFacts DriverFacts TailerFacts.

Section Only.
Context {Env Sink : Type} `{P : Platform Env} `{O : OutputHandler Sink}.
Local Abbreviation World := (World Env Sink).
Local Abbreviation M := (M (Env:=Env) (Sink:=Sink)).
Variable ok : Event -> bool.

Lemma Only_ret : forall (A : Type) (a : A), Only ok (ret a : M A).
Proof. intros A a w. exists []. cbn. now rewrite app_nil_r. Qed.

Lemma Only_bind : forall (A B : Type) (m : M A) (k : A -> M B),
  Only ok m -> (forall a, Only ok (k a)) -> Only ok (bind m k).
Proof.
  intros A B m k Hm Hk w. unfold bind.
  destruct (Hm w) as (e1 & T1 & Q1).
  destruct (m w) as [w1 a]. cbn [fst] in T1.
  destruct (Hk a w1) as (e2 & T2 & Q2).
  exists (e1 ++ e2)%list. split.
  - now rewrite T2, T1, app_assoc.
  - now rewrite forallb_app, Q1, Q2.
Qed.

Lemma Only_emit : forall e, ok e = true -> Only ok (emit e : M unit).
Proof. intros e He w. exists [e]. cbn. now rewrite He. Qed.

Lemma Only_callEnv : forall (A : Type) e (f : Env -> Env * A),
  ok e = true -> Only ok (callEnv e f : M A).
Proof.
  intros A e f He w. exists [e]. unfold callEnv.
  destruct (f (env w)). cbn. now rewrite He.
Qed.

Lemma Only_callSink : forall (A : Type) e (f : Sink -> Sink * A),
  ok e = true -> Only ok (callSink e f : M A).
Proof.
  intros A e f He w. exists [e]. unfold callSink.
  destruct (f (sink w)). cbn. now rewrite He.
Qed.

Lemma Only_readEnv : forall (A : Type) (f : Env -> A), Only ok (readEnv f : M A).
Proof. intros A f w. exists []. cbn. now rewrite app_nil_r. Qed.

(** The same for a whole run of the driver, given it for one goroutine. *)
Lemma runBlocks_only :
  forall cfg parent stop bar,
    (forall g h, Only ok (blockTask cfg parent bar g h)) ->
    ok (EvSlog Info "Processing cancelled by user") = true ->
    (forall h f r, ok (EvTaskDone h f r) = true) ->
    forall sched height g (w w' : World) x,
      runBlocks cfg parent stop bar sched height g w = Some (w', x) ->
      exists evs, trace w' = (trace w ++ evs)%list /\ forallb ok evs = true.
Proof.
  intros cfg parent stop bar Htask Hlog Hdone sched.
  induction sched as [|ch sched IH]; intros height g w w' x H;
    cbn [runBlocks] in H.
  - destruct (_ && _); [|discriminate]. inversion H; subst.
    exists []. now rewrite app_nil_r.
  - destruct ch as [|h].
    + destruct (height <=? stop); [|discriminate].
      destruct (ctx_Err _ _).
      * cbn in H. inversion H; subst.
        exists [EvSlog Info "Processing cancelled by user"].
        cbn. now rewrite Hlog.
      * destruct (_ <? MaxConcurrency cfg); [|discriminate].
        now apply IH in H.
    + destruct (existsb _ _); [|discriminate].
      destruct (Htask g h w) as (e1 & T1 & Q1).
      destruct (blockTask cfg parent bar g h w) as [w1 r0].
      cbn [fst] in T1. unfold emit in H. cbn [env sink trace] in H.
      apply IH in H. destruct H as (e2 & T2 & Q2). cbn [trace] in T2.
      exists (e1 ++ EvTaskDone h (isSome (gErr g)) r0 :: e2)%list. split.
      * rewrite T2, T1, <- !app_assoc. reflexivity.
      * rewrite forallb_app, Q1. cbn. now rewrite Hdone, Q2.
Qed.

End Only.

(** Breaks a computation into its calls and checks each event. *)
Ltac only_ok :=
  repeat first
    [ apply Only_ret
    | apply Only_readEnv
    | apply Only_emit; reflexivity
    | apply Only_callEnv; reflexivity
    | apply Only_callSink; reflexivity
    | apply Only_bind; [|intros ?]
    | match goal with
      | |- Only _ (match ?x with _ => _ end) => destruct x
      end ].

Section NeverFacts.
Context {Env Sink : Type} `{P : Platform Env} `{O : OutputHandler Sink}.
Local Abbreviation World := (World Env Sink).

Lemma blockTask_no_bar : forall cfg parent g h,
  Only (fun e => negb (isBarEvent e)) (blockTask cfg parent false g h).
Proof.
  intros. unfold blockTask, processOne, processSingleBlockWithResultsAndRetry,
    fetchBlockResults, processSingleBlockWithRetry, rpc, slog.
  only_ok.
Qed.

Lemma processOne_no_results : forall cfg c h,
  EnableBlockResults cfg = false ->
  Only (fun e => negb (isResultsWrite e)) (processOne cfg c h).
Proof.
  intros cfg c h Hoff. unfold processOne. rewrite Hoff.
  unfold processSingleBlockWithRetry, rpc. only_ok.
Qed.

Lemma blockTask_no_results : forall cfg parent bar g h,
  EnableBlockResults cfg = false ->
  Only (fun e => negb (isResultsWrite e)) (blockTask cfg parent bar g h).
Proof.
  intros cfg parent bar g h Hoff. unfold blockTask.
  apply Only_bind; [now apply processOne_no_results|].
  intros [err|]; unfold slog; only_ok.
Qed.

Lemma processMissingLoop_no_results : forall cfg c ids,
  EnableBlockResults cfg = false ->
  Only (fun e => negb (isResultsWrite e)) (processMissingLoop cfg c ids).
Proof.
  intros cfg c ids Hoff. induction ids as [|h ids IH]; cbn [processMissingLoop].
  - apply Only_ret.
  - apply Only_bind; [now apply processOne_no_results|].
    intros [err|]; [apply Only_ret|exact IH].
Qed.

(** X12: a drive of a single height ([start = stop]) never touches the
    progress bar: it is neither rendered, nor advanced, nor finished. *)
Theorem single_height_has_no_bar :
  forall sched c height cfg (w w' : World) r,
    extractBlocksAndTransactions sched c height height cfg w = Some (w', r) ->
    forallb (fun e => negb (isBarEvent e)) (newEvents w w') = true.
Proof.
  intros sched c height cfg w w' r H.
  unfold extractBlocksAndTransactions in H. rewrite Z.eqb_refl in H.
  cbn [negb] in H. run_m.
  destruct (processBlocks sched c height height cfg false _)
    as [[w3 [ex r3]]|] eqn:E; [|discriminate].
  unfold processBlocks in E.
  apply (runBlocks_only (fun e => negb (isBarEvent e))) in E;
    [|intros; apply blockTask_no_bar|reflexivity|reflexivity].
  destruct E as (evs & T & Q). cbn [trace] in T.
  assert (Hw : w' = w3) by (destruct r3; inversion H; reflexivity).
  subst w'. unfold newEvents.
  rewrite T, <- app_assoc, skipn_app_length. cbn. exact Q.
Qed.

(** X13: with [cfg.EnableBlockResults] off, neither a drive nor the gap
    repairer ever calls [WriteBlockResults]. *)
Theorem no_results_when_disabled :
  forall sched c start stop cfg (w : World),
    EnableBlockResults cfg = false ->
    forallb (fun e => negb (isResultsWrite e))
            (newEvents w (fst (processMissingBlocks c cfg w))) = true /\
    forall w' r,
      extractBlocksAndTransactions sched c start stop cfg w = Some (w', r) ->
      forallb (fun e => negb (isResultsWrite e)) (newEvents w w') = true.
Proof.
  intros sched c start stop cfg w Hoff. split.
  - assert (Hm : Only (fun e => negb (isResultsWrite e))
                      (processMissingBlocks c cfg)).
    { unfold processMissingBlocks, slog. only_ok.
      now apply processMissingLoop_no_results. }
    destruct (Hm w) as (evs & T & Q).
    unfold newEvents. now rewrite T, skipn_app_length.
  - intros w' r H.
    assert (Hx : exists evs, trace w' = (trace w ++ evs)%list /\
                   forallb (fun e => negb (isResultsWrite e)) evs = true).
    { unfold extractBlocksAndTransactions in H. run_m.
      destruct (negb (start =? stop)).
      - destruct (bar_RenderBlank (env w)) as [n [err|]].
        + inversion H; subst. cbn [trace]. rewrite <- app_assoc.
          eexists; split; reflexivity.
        + destruct (processBlocks sched c start stop cfg true _)
            as [[w3 [ex r3]]|] eqn:E; [|discriminate].
          unfold processBlocks in E.
          apply (runBlocks_only (fun e => negb (isResultsWrite e))) in E;
            [|intros; now apply blockTask_no_results|reflexivity|reflexivity].
          destruct E as (evs & T & Q). cbn [trace] in T.
          destruct r3 as [err|].
          * inversion H; subst. rewrite T, <- !app_assoc.
            eexists; split; [reflexivity|]. cbn. exact Q.
          * destruct (bar_Finish (env w3)) as [n4 [err|]];
              inversion H; subst; cbn [trace]; rewrite T, <- !app_assoc;
              (eexists; split; [reflexivity|]); cbn;
              rewrite forallb_app, Q; reflexivity.
      - destruct (processBlocks sched c start stop cfg false _)
          as [[w3 [ex r3]]|] eqn:E; [|discriminate].
        unfold processBlocks in E.
        apply (runBlocks_only (fun e => negb (isResultsWrite e))) in E;
          [|intros; now apply blockTask_no_results|reflexivity|reflexivity].
        destruct E as (evs & T & Q). cbn [trace] in T.
        assert (Hw : w' = w3) by (destruct r3; inversion H; reflexivity).
        subst w'. rewrite T, <- !app_assoc.
        eexists; split; [reflexivity|]. cbn. exact Q. }
    destruct Hx as (evs & T & Q).
    unfold newEvents. now rewrite T, skipn_app_length.
Qed.

(** X14: the earliest-height probe never calls the sink and leaves it as it
    was; it makes one request or two; the height it returns fits a
    [uint64]. *)
Theorem GetEarliestBlockHeight_frame :
  forall (c : GRPCClient) (maxRetries : Z) (w : World),
    let (w', out) := GetEarliestBlockHeight c maxRetries w in
    sink w' = sink w /\
    (newEvents w w' = [probeCall 1] \/
     newEvents w w' = [probeCall 1; probeCall maxRetries]) /\
    is_uint64 (fst out).
Proof.
  intros c maxRetries w.
  assert (U1 : is_uint64 1) by (split; [lia|rewrite uint64_max_value; lia]).
  assert (U0 : is_uint64 0) by (split; [lia|rewrite uint64_max_value; lia]).
  unfold GetEarliestBlockHeight. run_m.
  fold (probeCall 1). fold (probeCall maxRetries).
  destruct (GetGRPCResponse c getBlockByHeightMethod 1 heightOneParams (env w))
    as [n1 [body|err]].
  - unfold newEvents. cbn [trace sink fst]. rewrite skipn_app_length. auto.
  - destruct (0 <? parseLowestHeightFromError unicodeLower (Error err)).
    + unfold newEvents. cbn [trace sink fst]. rewrite skipn_app_length.
      split; [reflexivity|]. split; [now left|]. apply parseLowest_range.
    + cbn [env sink trace].
      destruct (GetGRPCResponse c getBlockByHeightMethod maxRetries
                                heightOneParams n1) as [n2 [body2|err2]];
        unfold newEvents; cbn [trace sink fst];
        rewrite <- app_assoc, skipn_app_length; auto.
Qed.

(** X15: the height the node reports in decimal is read back as it is: when
    the status field holds the digits of [n], the latest-height probe
    returns [n] if [n] fits a [uint64], and otherwise the range error of
    [strconv.ParseUint] wrapped as "error parsing height". *)
Theorem GetLatestBlockHeightWithRetry_reads_decimal :
  forall (c : GRPCClient) (maxRetries : Z) (w : World) (n1 : Env) (n : Z),
    0 <= n ->
    fieldRequest c statusMethod maxRetries "height" (env w) = (n1, Ok (fmt_d n)) ->
    snd (GetLatestBlockHeightWithRetry c maxRetries w) =
    if n <=? uint64_max then Ok n
    else Err (Wrap "error parsing height" (ErrRange (fmt_d n))).
Proof.
  intros c maxRetries w n1 n Hn Hf.
  unfold GetLatestBlockHeightWithRetry, ExtractGRPCField. run_m.
  rewrite Hf. cbn [snd]. rewrite (ParseUint_fmt_d n Hn).
  destruct (n <=? uint64_max); reflexivity.
Qed.

End NeverFacts.

(** X16: for a block time of up to 9223372036 seconds the tailer sleeps
    that many seconds between polls; beyond that the product overflows
    [int64], and in every case the duration is an [int64]. *)
Theorem sleepDuration_seconds :
  forall cfg,
    (0 <= BlockTime cfg <= 9223372036 ->
     sleepDuration cfg = BlockTime cfg * 1000000000) /\
    - 2 ^ 63 <= sleepDuration cfg < 2 ^ 63.
Proof.
  intros cfg. unfold sleepDuration, to_int64. split.
  - intros H.
    rewrite (Z.mod_small (BlockTime cfg + 2 ^ 63)) by lia.
    rewrite Z.mod_small by lia. lia.
  - pose proof (Z.mod_pos_bound
                  (((BlockTime cfg + 2 ^ 63) mod 2 ^ 64 - 2 ^ 63) * 1000000000
                   + 2 ^ 63) (2 ^ 64) ltac:(lia)) as B.
    lia.
Qed.

Lemma sleepDuration_seconds_witness :
  sleepDuration tenSeconds = 10 * 1000000000.
Proof.
  refine (proj1 (sleepDuration_seconds tenSeconds) _). cbn. lia.
Defined.

Lemma GetLatestBlockHeightWithRetry_reads_decimal_witness :
  snd (GetLatestBlockHeightWithRetry rootClient 3
         (start (healthyNode 28566001) emptySink)) = Ok 28566001.
Proof.
  refine (GetLatestBlockHeightWithRetry_reads_decimal (P:=simPlatform)
            (Sink:=SimSink) rootClient 3
            (start (healthyNode 28566001) emptySink)
            (healthyNode 28566001) 28566001 _ _).
  - lia.
  - reflexivity.
Defined.

Lemma no_results_when_disabled_witness :
  forallb (fun e => negb (isResultsWrite e))
    (newEvents (start (healthyNode 9) (sinkMissing [3; 7]))
       (fst (processMissingBlocks rootClient (mkConfig 3 5 2 false)
               (start (healthyNode 9) (sinkMissing [3; 7]))))) = true.
Proof.
  refine (proj1 (no_results_when_disabled (P:=simPlatform) (O:=simSink)
                   [] rootClient 1 1 (mkConfig 3 5 2 false)
                   (start (healthyNode 9) (sinkMissing [3; 7])) _)).
  reflexivity.
Defined.

Lemma single_height_has_no_bar_witness :
  exists w',
    extractBlocksAndTransactions [Spawn; Finish 4] rootClient 4 4
      (mkConfig 3 2 2 true) (start (healthyNode 10) emptySink)
    = Some (w', None) /\
    forallb (fun e => negb (isBarEvent e))
            (newEvents (start (healthyNode 10) emptySink) w') = true.
Proof.
  eexists. split; [vm_compute; reflexivity|].
  refine (single_height_has_no_bar (P:=simPlatform) (O:=simSink)
            [Spawn; Finish 4] rootClient 4 (mkConfig 3 2 2 true)
            (start (healthyNode 10) emptySink) _ None _).
  vm_compute. reflexivity.
Defined.

End NeverFacts.
